(** * vscode-git-blame: blame parsing, process runner, lookup coordination
    and relative time formatting

  A shallow embedding of [src/extension.ts] ([parseBlame], [getBlame]),
  [src/run-command.ts] ([runCommand]) and [src/time.ts] ([formatTimeAgo]),
  followed by the properties established about them.

  Conventions of the embedding.
  - A JavaScript string is a [string]: a finite sequence of code units.
    Only code units below 256 are represented; every operation used by the
    source ([split], [indexOf], [substring], [===], [parseInt]) works code
    unit by code unit, so nothing below depends on the width.
  - A JavaScript [number] is an IEEE 754 binary64 value: [float], the
    kernel's primitive floats, wherever the source computes with it
    ([formatTimeAgo]).  The result of [Number.parseInt] is kept as the
    mathematical integer it denotes ([Int z]) or [NaN].
  - A function that may throw returns a [Completion].
  - The event loop runs one job at a time: an [async] function is split at
    its [await] into the part that runs when it is called and the part that
    runs when the awaited promise has settled. *)

From Stdlib Require Import ZArith Lia Bool Ascii String Floats.
From stdpp Require Import base option list strings pretty gmap.

Local Open Scope string_scope.
Local Open Scope Z_scope.

(** ** JavaScript primitives used by the sources *)

Module JS.

(** An abrupt completion; the sources can only raise a [TypeError]
    (property access on [undefined]) and a [RangeError]
    ([Intl.RelativeTimeFormat.prototype.format] on a non-finite value). *)
Inductive Exception : Type :=
| TypeError
| RangeError.

Inductive Completion (A : Type) : Type :=
| Normal (a : A)
| Throw (e : Exception).
Arguments Normal {A} a.
Arguments Throw {A} e.

#[global] Instance Completion_ret : MRet Completion := fun _ a => Normal a.
#[global] Instance Completion_bind : MBind Completion := fun _ _ k m =>
  match m with
  | Normal a => k a
  | Throw e => Throw e
  end.

(** [Error(message)]: an error object used as a value. *)
Record Error : Type := mkError { message : string }.

(** The result of [Number.parseInt]: the integer read, or [NaN]. *)
Inductive Number : Type :=
| NaN
| Int (z : Z).

(** [s.length] *)
Definition length (s : string) : Z := Z.of_nat (String.length s).

Fixpoint take (n : nat) (s : string) : string :=
  match n, s with
  | S n', String c s' => String c (take n' s')
  | _, _ => ""
  end.

Fixpoint drop (n : nat) (s : string) : string :=
  match n, s with
  | S n', String _ s' => drop n' s'
  | _, _ => s
  end.

(** Clamping of an index argument of [substring] to [0 .. len]. *)
Definition clamp (len i : Z) : Z := Z.min (Z.max i 0) len.

(** [s.substring(start, end)]; [end_ = None] is the call with one argument.
    Both indices are clamped to [0 .. s.length] and swapped when
    [start > end]. *)
Definition substring (s : string) (start : Z) (end_ : option Z) : string :=
  let len := length s in
  let intStart := clamp len start in
  let intEnd := match end_ with
                | None => len
                | Some e => clamp len e
                end in
  let from := Z.min intStart intEnd in
  let to := Z.max intStart intEnd in
  take (Z.to_nat (to - from)) (drop (Z.to_nat from) s).

Fixpoint indexOf_from (s searchString : string) (i : Z) : Z :=
  if String.prefix searchString s then i
  else match s with
       | "" => -1
       | String _ s' => indexOf_from s' searchString (i + 1)
       end.

(** [s.indexOf(searchString)]: the first position where [searchString]
    occurs, [-1] when there is none. *)
Definition indexOf (s searchString : string) : Z :=
  indexOf_from s searchString 0.

(** [s.split(separator)] for a separator of one code unit, as in the source
    ([split("\n")]).  The result always has at least one element. *)
Fixpoint split (s : string) (separator : ascii) : list string :=
  match s with
  | "" => [""]
  | String c s' =>
      if Ascii.eqb c separator then "" :: split s' separator
      else match split s' separator with
           | l :: ls => String c l :: ls
           | [] => [String c ""]
           end
  end.

(** [a[i]] on an array: [undefined] out of range. *)
Definition index {A : Type} (a : list A) (i : nat) : option A := a !! i.

(** Reading a property (calling a method) of [a[i]]: a [TypeError] when the
    element is [undefined]. *)
Definition member {A : Type} (a : list A) (i : nat) : Completion A :=
  match index a i with
  | Some x => Normal x
  | None => Throw TypeError
  end.

(** White space skipped by [parseInt] (StrWhiteSpaceChar below 256): TAB,
    LF, VT, FF, CR, SP and NBSP. *)
Definition isWhiteSpace (c : ascii) : bool :=
  let n := Z.of_nat (nat_of_ascii c) in
  ((9 <=? n) && (n <=? 13)) || (n =? 32) || (n =? 160).

Fixpoint trimStart (s : string) : string :=
  match s with
  | String c s' => if isWhiteSpace c then trimStart s' else s
  | "" => ""
  end.

Definition digitValue (c : ascii) : option Z :=
  let n := Z.of_nat (nat_of_ascii c) in
  if (48 <=? n) && (n <=? 57) then Some (n - 48) else None.

(** The value of the longest prefix of decimal digits; [acc] is the value
    read so far, [None] while no digit has been read. *)
Fixpoint digits (s : string) (acc : option Z) : option Z :=
  match s with
  | String c s' =>
      match digitValue c with
      | Some d => digits s' (Some (10 * default 0 acc + d))
      | None => acc
      end
  | "" => acc
  end.

(** [Number.parseInt(s, 10)]: leading white space is skipped, then an
    optional sign, then the longest run of decimal digits is read; [NaN]
    when that run is empty.  With radix 10 no ["0x"] prefix is stripped. *)
Definition parseInt10 (s : string) : Number :=
  let t := trimStart s in
  let '(sign, t') := match t with
                     | String "-" r => (-1, r)
                     | String "+" r => (1, r)
                     | _ => (1, t)
                     end in
  match digits t' None with
  | None => NaN
  | Some n => Int (sign * n)
  end.

(** [!v] for [v : string | undefined]: [undefined] and [""] are falsy. *)
Definition falsy (v : option string) : bool :=
  match v with
  | None => true
  | Some s => length s =? 0
  end.

(** [s.startsWith(searchString)] *)
Definition startsWith (s searchString : string) : bool :=
  String.prefix searchString s.

(** The value of a finite [x] as a fraction [(num, den)], [den] a power of
    two; [None] when [x] is [NaN] or infinite. *)
Definition exact (x : float) : option (Z * Z) :=
  match Prim2SF x with
  | S754_zero _ => Some (0, 1)
  | S754_finite s m e =>
      let n := if s then Z.neg m else Z.pos m in
      Some (n * 2 ^ Z.max 0 e, 2 ^ Z.max 0 (- e))
  | S754_infinity _ => None
  | S754_nan => None
  end.

(** [Math.round(x)], as the integer the result denotes: [None] when [x] is
    [NaN] or infinite (the result is then [x] itself).  [x] is read exactly,
    as [n * 2 ^ e], and rounded to the nearest integer, a tie going to the
    integer closer to plus infinity.  A result of [-0] is given as [0]. *)
Definition Math_round (x : float) : option Z :=
  match Prim2SF x with
  | S754_zero _ => Some 0
  | S754_finite s m e =>
      let n := if s then Z.neg m else Z.pos m in
      Some (if 0 <=? e then n * 2 ^ e else (n + 2 ^ (- e - 1)) / 2 ^ (- e))
  | S754_infinity _ => None
  | S754_nan => None
  end.

(** An index argument of [slice]: a negative one counts from the end; the
    result lies in [0 .. len]. *)
Definition relativeIndex (len i : Z) : Z :=
  if i <? 0 then Z.max (len + i) 0 else Z.min i len.

(** [s.slice(start, end)]; [end_ = None] is the call with one argument.  The
    result is empty when the start is not before the end. *)
Definition slice (s : string) (start : Z) (end_ : option Z) : string :=
  let len := length s in
  let from := relativeIndex len start in
  let to := match end_ with
            | None => len
            | Some e => relativeIndex len e
            end in
  take (Z.to_nat (to - from)) (drop (Z.to_nat from) s).

(** [s.endsWith(searchString)] *)
Definition endsWith (s searchString : string) : bool :=
  let start := length s - length searchString in
  if start <? 0 then false
  else String.eqb (drop (Z.to_nat start) s) searchString.

End JS.

(** ** [src/run-command.ts]: the process runner *)

Module RunCommand.
Import JS.

(** A chunk handed to a ["data"] listener.  It is a [Buffer]; what
    [buffer += data] appends is its [toString()], which is all the runner
    uses of it. *)
Record Buffer : Type := mkBuffer { toString : string }.

(** The events of a child process the runner listens to, and what comes
    with them. *)
Inductive ProcessEvent : Type :=
| StdoutData (data : Buffer)
| StderrData (data : Buffer)
| Close (code : option Z).

Inductive Signal : Type :=
| SIGKILL.

(** [dirname(p)] of [node:path] is not part of the sources: a working
    directory is kept as the path it is the directory of. *)
Inductive Directory : Type :=
| dirname (p : string).

(** The arguments of [spawn(command, args, opts)]. *)
Record Spawn : Type := mkSpawn {
  command : string;
  args : list string;
  cwd : Directory
}.

Inductive PromiseState (A : Type) : Type :=
| Pending
| Fulfilled (value : A)
| Rejected (reason : Exception).
Arguments Pending {A}.
Arguments Fulfilled {A} value.
Arguments Rejected {A} reason.

(** [resolve(value)]: settles a pending promise, does nothing to a settled
    one. *)
Definition resolve {A : Type} (value : A) (p : PromiseState A) : PromiseState A :=
  match p with
  | Pending => Fulfilled value
  | Fulfilled v => Fulfilled v
  | Rejected r => Rejected r
  end.

(** What [runCommand] returns, [{ process, promise }], with the variable
    [buffer] its listeners close over.  [killed] is the signal
    [process.kill] was last called with. *)
Record Command : Type := mkCommand {
  process : Spawn;
  killed : option Signal;
  buffer : string;
  promise : PromiseState (option string)
}.

(** [runCommand(command, args, opts)]: the process is spawned, [buffer] is
    [""] and the promise is pending. *)
Definition runCommand (command : string) (args : list string) (cwd : Directory) : Command :=
  {| process := mkSpawn command args cwd;
     killed := None;
     buffer := "";
     promise := Pending |}.

(** [process.stdout.on("data", data => { buffer += data; })] *)
Definition onStdoutData (data : Buffer) (c : Command) : Command :=
  {| process := process c;
     killed := killed c;
     buffer := buffer c +:+ toString data;
     promise := promise c |}.

(** [process.stderr.on("data", data => {})] *)
Definition onStderrData (data : Buffer) (c : Command) : Command := c.

(** [process.on("close", code => ...)]: resolves with [buffer] when it is
    not empty, with [undefined] ([None]) otherwise. *)
Definition onClose (code : option Z) (c : Command) : Command :=
  {| process := process c;
     killed := killed c;
     buffer := buffer c;
     promise := if length (buffer c) >? 0
                then resolve (Some (buffer c)) (promise c)
                else resolve None (promise c) |}.

(** One event of the child process reaches its listener. *)
Definition emit (e : ProcessEvent) (c : Command) : Command :=
  match e with
  | StdoutData data => onStdoutData data c
  | StderrData data => onStderrData data c
  | Close code => onClose code c
  end.

(** The events of the child process, delivered in order. *)
Definition deliver (events : list ProcessEvent) (c : Command) : Command :=
  foldl (fun c e => emit e c) c events.

Definition isClose (e : ProcessEvent) : bool :=
  match e with
  | Close _ => true
  | _ => false
  end.

(** The chunks of standard output among [events], one after the other. *)
Fixpoint stdoutText (events : list ProcessEvent) : string :=
  match events with
  | [] => ""
  | StdoutData data :: rest => toString data +:+ stdoutText rest
  | _ :: rest => stdoutText rest
  end.

(** [process.kill(signal)] *)
Definition kill (signal : Signal) (c : Command) : Command :=
  {| process := process c;
     killed := Some signal;
     buffer := buffer c;
     promise := promise c |}.

End RunCommand.

(** ** [src/extension.ts]: the blame parser and the lookup *)

Module Extension.
Import JS RunCommand.

Record BlameCommitter : Type := mkBlameCommitter {
  name : string;
  email : string;
  time : Number
}.

Record BlameStruct : Type := mkBlameStruct {
  author : BlameCommitter;
  committer : BlameCommitter;
  summary : string;
  sha : string
}.

(** The all-zero hash git reports for a line that is not committed yet. *)
Definition zeroSha : string := "0000000000000000000000000000000000000000".

(** [line.substring(line.indexOf(" ") + 1)] *)
Definition afterSpace (line : string) : string :=
  substring line (indexOf line " " + 1) None.

(** [line.substring(0, line.indexOf(" "))] *)
Definition beforeSpace (line : string) : string :=
  substring line 0 (Some (indexOf line " ")).

(** [parseBlame(blameString)]: [inl] is a [BlameStruct], [inr] an [Error]
    returned as a value. The lines are read in the order of the source, so
    the first missing one raises the [TypeError]. *)
Definition parseBlame (blameString : string) : Completion (BlameStruct + Error) :=
  let lines := split blameString "010"%char in
  l0 ← member lines 0;
  let sha := beforeSpace l0 in
  if String.eqb sha zeroSha then
    mret (inr (mkError "Change not committed yet"))
  else
    l1 ← member lines 1;
    let author_name := afterSpace l1 in
    l2 ← member lines 2;
    let author_email := afterSpace l2 in
    l3 ← member lines 3;
    let author_time := parseInt10 (afterSpace l3) in
    l5 ← member lines 5;
    let committer_name := afterSpace l5 in
    l6 ← member lines 6;
    let committer_email := afterSpace l6 in
    l7 ← member lines 7;
    let committer_time := parseInt10 (afterSpace l7) in
    l9 ← member lines 9;
    let summary := afterSpace l9 in
    mret (inl {| author := {| name := author_name;
                              email := author_email;
                              time := author_time |};
                 committer := {| name := committer_name;
                                 email := committer_email;
                                 time := committer_time |};
                 summary := summary;
                 sha := sha |}).

(** What [getBlame] reads of its [vscode.TextEditor]:
    [editor.document.uri.path] and [editor.selection.active.line]. *)
Record TextEditor : Type := mkTextEditor {
  path : string;
  line : Z
}.

(** A child process is named by the order in which it was spawned. *)
Definition Pid : Type := nat.

(** The state shared by the calls of [getBlame]: the module variable
    [activeBlame], and the child processes spawned so far with their
    promises.  [returned] holds, for the call that awaited child [pid], what
    that call resolved with ([Throw]: its promise was rejected). *)
Record World : Type := mkWorld {
  activeBlame : option Pid;
  children : gmap Pid Command;
  spawnCount : nat;
  returned : gmap Pid (Completion (BlameStruct + Error))
}.

Definition initial : World :=
  {| activeBlame := None; children := ∅; spawnCount := 0; returned := ∅ |}.

Definition setActiveBlame (v : option Pid) (w : World) : World :=
  {| activeBlame := v;
     children := children w;
     spawnCount := spawnCount w;
     returned := returned w |}.

Definition setChildren (m : gmap Pid Command) (w : World) : World :=
  {| activeBlame := activeBlame w;
     children := m;
     spawnCount := spawnCount w;
     returned := returned w |}.

(** A new child process enters the world. *)
Definition spawn (c : Command) (w : World) : Pid * World :=
  let pid := spawnCount w in
  (pid, {| activeBlame := activeBlame w;
           children := <[pid := c]> (children w);
           spawnCount := S pid;
           returned := returned w |}).

(** [getBlame(editor)] up to its [await command.promise]: either it has
    returned an [Error] ([inl]), or it waits for the promise of the child it
    spawned ([inr]). *)
Definition getBlame_call (editor : TextEditor) (w : World) : World * (Error + Pid) :=
  if negb (startsWith (path editor) "/") then
    (w, inl (mkError "Cannot blame non-existent file"))
  else
    let w1 := match activeBlame w with
              | Some p =>
                  setActiveBlame None
                    (setChildren (alter (kill SIGKILL) p (children w)) w)
              | None => w
              end in
    let '(pid, w2) :=
      spawn (runCommand "git"
               ["blame"; "-C"; "--porcelain"; "-L";
                pretty (line editor + 1) +:+ ",+1"; path editor]
               (dirname (path editor))) w1 in
    (setActiveBlame (Some pid) w2, inr pid).

(** [getBlame] from the point where [command.promise] has resolved with
    [result]. *)
Definition getBlame_resume (result : option string) (w : World)
  : World * Completion (BlameStruct + Error) :=
  let w1 := setActiveBlame None w in
  if falsy result then
    (w1, Normal (inr (mkError "Unknown error..")))
  else
    (w1, parseBlame (default "" result)).

(** The jobs the event loop runs, one at a time: a call of [getBlame] (from
    [showBlame] or [onSelectionChange]), or an event of a child process.  An
    event that settles the child's promise lets the call that awaits it run
    to its end. *)
Inductive Job : Type :=
| Call (editor : TextEditor)
| Event (pid : Pid) (e : ProcessEvent).

Definition step (w : World) (j : Job) : World :=
  match j with
  | Call editor => fst (getBlame_call editor w)
  | Event pid e =>
      match children w !! pid with
      | None => w
      | Some c =>
          let c' := emit e c in
          let w1 := setChildren (<[pid := c']> (children w)) w in
          match promise c, promise c' with
          | Pending, Fulfilled result =>
              let '(w2, r) := getBlame_resume result w1 in
              {| activeBlame := activeBlame w2;
                 children := children w2;
                 spawnCount := spawnCount w2;
                 returned := <[pid := r]> (returned w2) |}
          | _, _ => w1
          end
      end
  end.

Definition run (jobs : list Job) (w : World) : World := foldl step w jobs.

End Extension.

(** ** [src/time.ts]: the relative time formatter *)

Module Time.
Import JS.
Local Open Scope float_scope.

Inductive RelativeTimeFormatUnit : Type :=
| seconds | minutes | hours | days | weeks | months | years.

Record Division : Type := mkDivision {
  amount : float;
  name : RelativeTimeFormatUnit
}.

(** [4.34524] is read as the binary64 value closest to it, written here in
    hexadecimal (see [weeks_amount_is_nearest]). *)
Definition DIVISIONS : list Division :=
  [ mkDivision 60 seconds;
    mkDivision 60 minutes;
    mkDivision 24 hours;
    mkDivision 7 days;
    mkDivision 0x1.161869835158cp+2 weeks;
    mkDivision 12 months;
    mkDivision infinity years ].

(** A [Date], by its time value in milliseconds; [NaN] for an invalid
    date. *)
Record Date : Type := mkDate { getTime : float }.

(** What [formatter.format(value, unit)] is asked to print.  The phrase
    itself depends on the locale; with [numeric: "auto"] it says [value]
    units from now, negative values being in the past and [0 seconds]
    being ["now"]. *)
Record RelativeTime : Type := mkRelativeTime {
  value : Z;
  unit : RelativeTimeFormatUnit
}.

(** [formatter.format(value, unit)] for a [value] that [Math.round]
    produced: a [RangeError] when it is not finite. *)
Definition format (value : option Z) (unit : RelativeTimeFormatUnit)
  : Completion RelativeTime :=
  match value with
  | Some n => Normal (mkRelativeTime n unit)
  | None => Throw RangeError
  end.

(** The [for] loop of [formatTimeAgo]: [inl] is the [return] inside the
    loop, [inr] is the loop running out, with the value of [duration] it
    ends with. *)
Fixpoint walk (divisions : list Division) (duration : float)
  : Completion RelativeTime + float :=
  match divisions with
  | [] => inr duration
  | division :: rest =>
      if abs duration <? amount division then
        inl (format (Math_round duration) (name division))
      else
        walk rest (duration / amount division)
  end.

(** [duration] divided by the amounts of the first [k] divisions, one after
    the other: the value of the variable [duration] when the loop reaches
    division [k]. *)
Definition scaled (divisions : list Division) (duration : float) (k : nat) : float :=
  foldl (fun d division => d / amount division) duration (firstn k divisions).

(** [formatTimeAgo(date)], [now] being the [new Date()] it takes. *)
Definition formatTimeAgo (now date : Date) : Completion RelativeTime :=
  let duration := (getTime date - getTime now) / 1000 in
  match walk DIVISIONS duration with
  | inl result => result
  | inr duration' => format (Math_round duration') seconds
  end.

End Time.


(** ** The porcelain text the parser is given *)

Module Porcelain.

Definition LF : ascii := "010"%char.
Definition SP : ascii := " "%char.

(** Whether the code unit [c] occurs in [s]. *)
Fixpoint occurs (c : ascii) (s : string) : bool :=
  match s with
  | "" => false
  | String d s' => Ascii.eqb d c || occurs c s'
  end.

(** A line [<key> <value>]. *)
Definition field (key value : string) : string := key +:+ String SP value.

(** The lines of a text, each but the last followed by a newline. *)
Fixpoint unlines (ls : list string) : string :=
  match ls with
  | [] => ""
  | [l] => l
  | l :: ls' => l +:+ String LF (unlines ls')
  end.

(** The first line of a text. *)
Definition firstLine (s : string) : string :=
  hd "" (JS.split s LF).

(** The record whose fields are read from [lines] by position, as
    [parseBlame] reads them. *)
Definition recordOf (lines : list string) : Extension.BlameStruct :=
  let at_ i := default "" (lines !! i) in
  {| Extension.author :=
       {| Extension.name := Extension.afterSpace (at_ 1%nat);
          Extension.email := Extension.afterSpace (at_ 2%nat);
          Extension.time := JS.parseInt10 (Extension.afterSpace (at_ 3%nat)) |};
     Extension.committer :=
       {| Extension.name := Extension.afterSpace (at_ 5%nat);
          Extension.email := Extension.afterSpace (at_ 6%nat);
          Extension.time := JS.parseInt10 (Extension.afterSpace (at_ 7%nat)) |};
     Extension.summary := Extension.afterSpace (at_ 9%nat);
     Extension.sha := Extension.beforeSpace (at_ 0%nat) |}.

(** The two [Error] values of the parser and of the lookup. *)
Definition notCommitted : JS.Error := JS.mkError "Change not committed yet".
Definition noFile : JS.Error := JS.mkError "Cannot blame non-existent file".
Definition noOutput : JS.Error := JS.mkError "Unknown error..".

(** A blame of one line as [git blame --porcelain] prints it, followed by
    the [filename] line and the line of the file itself. *)
Definition sampleLines : list string :=
  [ "8f3a1c0d9e2b4a6f7c8d9e0f1a2b3c4d5e6f7a8b 12 12 1";
    "author Ada Lovelace";
    "author-mail <ada@example.org>";
    "author-time 1700000000";
    "author-tz +0100";
    "committer Charles Babbage";
    "committer-mail <charles@example.org>";
    "committer-time 1700000600";
    "committer-tz +0000";
    "summary Fix the off by one in the loop";
    "filename src/time.ts";
    String "009" "return 1;" ].


(** The same blame with other time zones and without the lines after the
    summary. *)
Definition sampleLinesOtherZone : list string :=
  <[4%nat := "author-tz -0800"]>
    (<[8%nat := "committer-tz +0530"]> (firstn 10 sampleLines)).

(** The same text cut after its third line. *)
Definition shortLines : list string := firstn 3 sampleLines.

(** A text whose first line is the all-zero hash and nothing else. *)
Definition bareZeroLines : list string :=
  Extension.zeroSha :: tl sampleLines.

End Porcelain.

(** ** Lookups that overlap *)

Module Scenario.
Import RunCommand Extension.

Definition editorA : TextEditor := mkTextEditor "/home/ada/project/src/time.ts" 16.
Definition editorB : TextEditor := mkTextEditor "/home/ada/project/src/time.ts" 17.
Definition editorC : TextEditor := mkTextEditor "/home/ada/project/src/time.ts" 18.

(** An editor on a document that is not a file on disk. *)
Definition untitled : TextEditor := mkTextEditor "Untitled-1" 0.

(** Three lookups A, B and C in a row: B starts while the process of A
    runs; the process of A, killed, closes; C starts while the process of B
    still runs. *)
Definition threeLookups : list Job :=
  [ Call editorA; Call editorB; Event 0%nat (Close None); Call editorC ].

(** An instant, the instants 90 seconds before and after it, and an invalid
    date. *)
Definition now0 : Time.Date := Time.mkDate 1700000000000.
Definition before90 : Time.Date := Time.mkDate 1699999910000.
Definition after90 : Time.Date := Time.mkDate 1700000090000.
Definition invalidDate : Time.Date := Time.mkDate nan.
Definition before30 : Time.Date := Time.mkDate 1699999970000.
Definition before8days : Time.Date := Time.mkDate 1699308800000.

(** The chunks and the close of a process that prints ["abc"]. *)
Definition abcEvents : list ProcessEvent :=
  [ StdoutData (mkBuffer "a"); StderrData (mkBuffer "warning");
    StdoutData (mkBuffer "bc"); Close (Some 0) ].

End Scenario.

(** ** [src/extension.ts]: what is shown of a blame *)

Module Display.
Import JS RunCommand Extension.

(** The [summary] that [onSelectionChange] puts in the inline hint:
    [blame.summary.length > 20 ? `${blame.summary.slice(0,18)}...`
     : blame.summary.slice(0,18)]. *)
Definition summaryText (summary : string) : string :=
  if length summary >? 20 then slice summary 0 (Some 18) +:+ "..."
  else slice summary 0 (Some 18).

(** The [contentText] of the inline hint.  [timeAgo] is the phrase
    [formatTimeAgo] returned for the committer time. *)
Definition contentText (blame : BlameStruct + Error) (timeAgo : string) : string :=
  match blame with
  | inr e => message e
  | inl b =>
      Extension.name (committer b) +:+ " (" +:+ slice (sha b) 0 (Some 8) +:+ ", "
        +:+ timeAgo +:+ ") " +:+ summaryText (summary b)
  end.

(** How the "open-online" action of [showBlame] ends: with a warning, or
    with [vscode.open] executed on a URL. *)
Inductive OpenOnline : Type :=
| ShowWarningMessage (message : string)
| Open (url : string).

(** [remoteBranchResult.substring(0, remoteBranchResult.indexOf("/"))] *)
Definition remoteOf (remoteBranchResult : string) : string :=
  substring remoteBranchResult 0 (Some (indexOf remoteBranchResult "/")).

(** The "open-online" action for a blame with hash [sha].  [revParse] is
    what the promise of [git rev-parse --abbrev-ref --symbolic-full-name
    @{u}] resolved with, [lsRemote remote] what the promise of
    [git ls-remote --get-url remote] resolves with. *)
Definition openOnline (sha : string) (revParse : option string)
    (lsRemote : string -> option string) : OpenOnline :=
  if falsy revParse then ShowWarningMessage "No tracking branch"
  else
    let remoteBranchResult := default "" revParse in
    let remote := remoteOf remoteBranchResult in
    let remoteUrlResult := lsRemote remote in
    if falsy remoteUrlResult then
      ShowWarningMessage ("Could not find remote '" +:+ remote +:+ "'")
    else
      let remoteUrlResult := default "" remoteUrlResult in
      let remoteUrlResult :=
        if endsWith remoteUrlResult ".git"
        then slice remoteUrlResult 0 (Some (-4))
        else remoteUrlResult in
      Open (remoteUrlResult +:+ "/commit/" +:+ sha).

End Display.

(** ** [src/extension.ts]: the texts of the hint and of the message *)

Module Shown.
Import JS Extension Display.

(** The binary64 value nearest to the integer [z]: the number [parseInt]
    returns for [Int z]. *)
Definition ofInteger (z : Z) : float :=
  SF2Prim (binary_normalize prec emax z 0 false).

(** [new Date(time * 1000)]: the time value is [NaN] when the product is not
    finite or beyond 8.64e15 in magnitude, and the product otherwise (it is
    an integer; adding [0] turns [-0] into [0]). *)
Definition newDate (time : Number) : Time.Date :=
  match time with
  | NaN => Time.mkDate nan
  | Int z =>
      let tv := (ofInteger z * 1000)%float in
      Time.mkDate (if (abs tv <=? 8.64e15)%float then (tv + 0)%float else nan)
  end.

(** The [contentText] [onSelectionChange] computes for [blame], [now] being
    the current time and [phrase] the text the formatter of the locale
    prints; [Throw] when [formatTimeAgo] throws. *)
Definition inlineHint (now : Time.Date) (phrase : Time.RelativeTime -> string)
    (blame : BlameStruct + Error) : Completion string :=
  match blame with
  | inr e => Normal (contentText (inr e) "")
  | inl b =>
      r ← Time.formatTimeAgo now (newDate (time (committer b)));
      Normal (contentText (inl b) (phrase r))
  end.

(** What [showBlame] shows: an error message for an [Error], an information
    message for a blame. *)
Inductive Message : Type :=
| ErrorMessage (text : string)
| InformationMessage (text : string).

Definition blameMessage (now : Time.Date) (phrase : Time.RelativeTime -> string)
    (blame : BlameStruct + Error) : Completion Message :=
  match blame with
  | inr e => Normal (ErrorMessage ("Failed to blame: " +:+ message e))
  | inl b =>
      r ← Time.formatTimeAgo now (newDate (time (committer b)));
      Normal (InformationMessage
                ("Blame " +:+ Extension.name (committer b) +:+ " (" +:+ phrase r
                 +:+ "):" +:+ String "010" (summary b)
                 +:+ String "010" (sha b)))
  end.

(** A blame whose committer time was not a number. *)
Definition undatedBlame : BlameStruct :=
  {| author := {| Extension.name := "Ada Lovelace";
                  email := "<ada@example.org>";
                  time := Int 1700000000 |};
     committer := {| Extension.name := "Charles Babbage";
                     email := "<charles@example.org>";
                     time := NaN |};
     summary := "Fix the off by one in the loop";
     sha := "8f3a1c0d9e2b4a6f7c8d9e0f1a2b3c4d5e6f7a8b" |}.

(** English phrases, for the examples. *)
Definition englishPhrase (r : Time.RelativeTime) : string :=
  match Time.unit r, Time.value r with
  | Time.minutes, (-1) => "1 minute ago"
  | Time.seconds, 0 => "now"
  | _, _ => "some time ago"
  end.

End Shown.

(** ** What holds of every world the lookups can reach *)

Module Reachable.
Import JS RunCommand Extension.

(** What [getBlame] makes of the value [result] its process's promise
    resolved with. *)
Definition outcome (result : option string) : Completion (BlameStruct + Error) :=
  if falsy result then Normal (inr (mkError "Unknown error.."))
  else parseBlame (default "" result).


(** The child processes are the first [spawnCount] ones, none of their
    promises is rejected, [activeBlame] refers to a child that has not
    closed and was sent no signal, and a call has returned exactly when the
    promise of its child is fulfilled, with the [outcome] of the value it
    was fulfilled with. *)
Record Invariant (w : World) : Prop := mkInvariant {
  children_spawned :
    forall p : Pid, is_Some (children w !! p) <-> (p < spawnCount w)%nat;
  never_rejected :
    forall (p : Pid) (c : Command) (reason : Exception),
      children w !! p = Some c -> promise c <> Rejected reason;
  active_running :
    forall p : Pid,
      activeBlame w = Some p ->
      exists c, children w !! p = Some c
                /\ promise c = Pending /\ killed c = None;
  returned_outcome :
    forall p : Pid,
      returned w !! p
      = (children w !! p) ≫= (fun c =>
          match promise c with
          | Fulfilled result => Some (outcome result)
          | _ => None
          end)
}.


(** What [returned] holds for a child: the [outcome] of the value its
    promise is fulfilled with, nothing while the promise is pending. *)
Definition returnedFor (c : Command) : option (Completion (BlameStruct + Error)) :=
  match promise c with
  | Fulfilled result => Some (outcome result)
  | _ => None
  end.

End Reachable.

(** ** The range of what the formatter prints *)

Module Range.
Import Time.

(** The greatest magnitude [formatTimeAgo] prints with each unit; there is
    none for years. *)
Definition limit (u : RelativeTimeFormatUnit) : option Z :=
  match u with
  | seconds => Some 60
  | minutes => Some 60
  | hours => Some 24
  | days => Some 7
  | weeks => Some 4
  | months => Some 12
  | years => None
  end.

End Range.

Import JS RunCommand Extension Time Porcelain Scenario.
Import Display Reachable Range Shown.

(** * Properties *)

(** ** Strings *)

Section Strings.

Implicit Types (s a b k v : string) (c : ascii).

Lemma app_nil b : "" +:+ b = b.
Proof. reflexivity. Qed.

Lemma app_cons c a b : String c a +:+ b = String c (a +:+ b).
Proof. reflexivity. Qed.

Lemma app_assoc a b d : (a +:+ b) +:+ d = a +:+ (b +:+ d).
Proof. induction a as [|c a IH]; [done|]. by rewrite !app_cons, IH. Qed.

Lemma length_app a b :
  String.length (a +:+ b) = (String.length a + String.length b)%nat.
Proof.
  induction a as [|c a IH]; [done|]. rewrite app_cons. simpl. by rewrite IH.
Qed.

Lemma take_app_length a b : take (String.length a) (a +:+ b) = a.
Proof.
  induction a as [|c a IH]; [by destruct b|].
  rewrite app_cons. simpl. by rewrite IH.
Qed.

Lemma drop_app_length a b : drop (String.length a) (a +:+ b) = b.
Proof. induction a as [|c a IH]; [by destruct b|]. by rewrite app_cons. Qed.

Lemma take_length s : take (String.length s) s = s.
Proof. induction s as [|c s IH]; simpl; [done|]. by rewrite IH. Qed.

Lemma take_0 s : take 0 s = "".
Proof. by destruct s. Qed.

Lemma prefix_SP c s :
  String.prefix (String SP "") (String c s) = Ascii.eqb c SP.
Proof.
  cbn [String.prefix]. destruct (ascii_dec SP c) as [<-|Hne].
  - rewrite Ascii.eqb_refl. by destruct s.
  - symmetry. apply Ascii.eqb_neq. congruence.
Qed.

Lemma indexOf_from_field k v i :
  occurs SP k = false ->
  indexOf_from (field k v) (String SP "") i = i + length k.
Proof.
  revert i. induction k as [|c k IH]; intros i Hk.
  - unfold field, length. rewrite app_nil. cbn [indexOf_from].
    rewrite prefix_SP, Ascii.eqb_refl. simpl. lia.
  - simpl in Hk. apply orb_false_iff in Hk as [Hc Hk].
    unfold field. rewrite app_cons. cbn [indexOf_from].
    rewrite prefix_SP, Hc. fold (field k v).
    rewrite IH by done. unfold length. simpl String.length. lia.
Qed.

Lemma indexOf_from_absent s i :
  occurs SP s = false -> indexOf_from s (String SP "") i = -1.
Proof.
  revert i. induction s as [|c s IH]; intros i Hs; [done|].
  simpl in Hs. apply orb_false_iff in Hs as [Hc Hs].
  cbn [indexOf_from]. rewrite prefix_SP, Hc. by apply IH.
Qed.

(** The text after the first space of [<key> <value>] is [value]. *)
Lemma afterSpace_field k v : occurs SP k = false -> afterSpace (field k v) = v.
Proof.
  intros Hk. unfold afterSpace, indexOf, substring.
  change " " with (String SP ""). rewrite indexOf_from_field by done.
  assert (Hlen : length (field k v) = length k + 1 + length v).
  { unfold length, field. rewrite length_app. simpl String.length. lia. }
  rewrite Hlen. unfold clamp, length.
  replace (Z.to_nat _) with (String.length v) by lia.
  replace (Z.to_nat _) with (String.length (k +:+ String SP "")).
  2:{ rewrite length_app. simpl. lia. }
  unfold field. replace (k +:+ String SP v) with ((k +:+ String SP "") +:+ v).
  2:{ by rewrite app_assoc. }
  rewrite drop_app_length. apply take_length.
Qed.

(** The text before the first space of [<key> <value>] is [key]. *)
Lemma beforeSpace_field k v : occurs SP k = false -> beforeSpace (field k v) = k.
Proof.
  intros Hk. unfold beforeSpace, indexOf, substring.
  change " " with (String SP ""). rewrite indexOf_from_field by done.
  assert (Hlen : length (field k v) = length k + 1 + length v).
  { unfold length, field. rewrite length_app. simpl String.length. lia. }
  rewrite Hlen. unfold clamp, length.
  replace (Z.to_nat (Z.min _ _)) with 0%nat by lia.
  replace (Z.to_nat _) with (String.length k) by lia.
  cbn [drop]. apply take_app_length.
Qed.

(** Without a space, [indexOf] is [-1]: [substring(0, -1)] is empty and
    [substring(-1 + 1)] is the whole line. *)
Lemma beforeSpace_absent s : occurs SP s = false -> beforeSpace s = "".
Proof.
  intros Hs. unfold beforeSpace, indexOf, substring.
  change " " with (String SP ""). rewrite indexOf_from_absent by done.
  unfold clamp, length.
  replace (Z.to_nat (_ - _)) with 0%nat by lia. apply take_0.
Qed.

Lemma afterSpace_absent s : occurs SP s = false -> afterSpace s = s.
Proof.
  intros Hs. unfold afterSpace, indexOf, substring.
  change " " with (String SP ""). rewrite indexOf_from_absent by done.
  unfold clamp, length.
  replace (Z.to_nat (Z.min _ _)) with 0%nat by lia.
  replace (Z.to_nat _) with (String.length s) by lia.
  cbn [drop]. apply take_length.
Qed.

Lemma split_nonempty s c : split s c <> [].
Proof. destruct s as [|d s]; simpl; [done|]. by repeat case_match. Qed.

(** Splitting a text that starts with a line break free [a]. *)
Lemma split_app a b :
  occurs LF a = false ->
  split (a +:+ b) LF = (a +:+ hd "" (split b LF)) :: tl (split b LF).
Proof.
  induction a as [|c a IH]; intros Ha.
  - rewrite !app_nil. pose proof (split_nonempty b LF).
    by destruct (split b LF).
  - simpl in Ha. apply orb_false_iff in Ha as [Hc Ha].
    rewrite !app_cons. cbn [split]. rewrite Hc, IH by done. done.
Qed.

Lemma split_line a : occurs LF a = false -> split a LF = [a].
Proof.
  induction a as [|c a IH]; intros Ha; [done|].
  simpl in Ha. apply orb_false_iff in Ha as [Hc Ha].
  cbn [split]. rewrite Hc, IH by done. done.
Qed.

Lemma split_LF a : split (String LF a) LF = "" :: split a LF.
Proof. reflexivity. Qed.

Lemma unlines_cons (l l' : string) (ls : list string) :
  unlines (l :: l' :: ls) = l +:+ String LF (unlines (l' :: ls)).
Proof. reflexivity. Qed.

Lemma app_nil_r a : a +:+ "" = a.
Proof. induction a as [|c a IH]; [done|]. by rewrite app_cons, IH. Qed.

(** [split] undoes [unlines] on lines without line breaks. *)
Lemma split_unlines (ls : list string) :
  ls <> [] ->
  Forall (fun l => occurs LF l = false) ls ->
  split (unlines ls) LF = ls.
Proof.
  intros Hne Hls. induction Hls as [|l ls Hl Hls IH]; [done|].
  destruct ls as [|l' ls].
  - simpl. by apply split_line.
  - rewrite unlines_cons, split_app, split_LF by done.
    cbn [hd tl]. by rewrite IH, app_nil_r.
Qed.

End Strings.

(** ** The blame parser *)

Section ParseBlame.

Implicit Types (s : string) (lines : list string).

Lemma member_lookup {A : Type} (a : list A) (i : nat) (x : A) :
  a !! i = Some x -> member a i = Normal x.
Proof. unfold member, index. by intros ->. Qed.

(** [parseBlame] in closed form: the [Error] when the text before the first
    space of the first line is the all-zero hash; otherwise the record read
    by position when there are at least ten lines, and a [TypeError] when
    there are fewer. *)
Lemma parseBlame_unfold s :
  parseBlame s =
    if String.eqb (beforeSpace (firstLine s)) zeroSha then
      Normal (inr notCommitted)
    else if decide (10 <= List.length (split s LF))%nat then
      Normal (inl (recordOf (split s LF)))
    else Throw TypeError.
Proof.
  unfold parseBlame, firstLine. change "010"%char with LF.
  pose proof (split_nonempty s LF) as Hne.
  destruct (split s LF) as [|l0 lines]; [done|]. clear Hne.
  cbn [hd]. change (member (l0 :: lines) 0) with (Normal l0).
  cbn [mbind Completion_bind].
  destruct (String.eqb (beforeSpace l0) zeroSha); [done|].
  do 9 (destruct lines as [|? lines];
        [by rewrite decide_False by (simpl; lia)|]).
  by rewrite decide_True by (simpl; lia).
Qed.

Lemma firstLine_unlines (l : string) lines :
  Forall (fun l => occurs LF l = false) (l :: lines) ->
  firstLine (unlines (l :: lines)) = l.
Proof.
  intros Hls. unfold firstLine. by rewrite split_unlines.
Qed.

(** The first line of a text that begins with [<key> ] and goes on in any
    way. *)
Lemma firstLine_field k rest :
  occurs LF k = false ->
  firstLine (field k rest) = field k (firstLine rest).
Proof.
  intros Hk. unfold firstLine, field.
  replace (k +:+ String SP rest) with ((k +:+ String SP "") +:+ rest)
    by apply app_assoc.
  rewrite split_app.
  - cbn [hd]. apply app_assoc.
  - clear rest. induction k as [|c k IH]; [done|].
    simpl in Hk. apply orb_false_iff in Hk as [Hc Hk].
    rewrite app_cons. simpl. by rewrite Hc, IH.
Qed.

End ParseBlame.

(** C1. Well-formed porcelain text is parsed into the record of its fields.
    For every text of at least ten lines (indices 0 to 9, any lines may
    follow) in which lines 0, 1, 2, 3, 5, 6, 7 and 9 are a space-free key, a
    space and a value, and whose first key is not the all-zero hash,
    [parseBlame] returns a record: [sha] is the key of line 0, the names,
    emails and the summary are the values of lines 1, 2, 5, 6 and 9, and the
    two times are [parseInt] in base 10 of the values of lines 3 and 7. *)
Theorem parseBlame_well_formed
  (rev meta k1 name1 k2 mail1 k3 time1 l4 : string)
  (k5 name2 k6 mail2 k7 time2 l8 k9 text : string) (rest : list string) :
  let lines :=
    ([ field rev meta; field k1 name1; field k2 mail1; field k3 time1; l4;
       field k5 name2; field k6 mail2; field k7 time2; l8; field k9 text ]
     ++ rest)%list in
  Forall (fun l => occurs LF l = false) lines ->
  Forall (fun k => occurs SP k = false) [rev; k1; k2; k3; k5; k6; k7; k9] ->
  rev <> zeroSha ->
  parseBlame (unlines lines) =
    Normal (inl {| author := {| Extension.name := name1;
                                email := mail1;
                                time := parseInt10 time1 |};
                   committer := {| Extension.name := name2;
                                   email := mail2;
                                   time := parseInt10 time2 |};
                   summary := text;
                   sha := rev |}).
Proof.
  intros lines Hlines Hkeys Hrev. subst lines. cbn [app] in *.
  rewrite parseBlame_unfold, firstLine_unlines by exact Hlines.
  rewrite split_unlines by done. clear Hlines.
  repeat match goal with
         | H : Forall _ (_ :: _) |- _ => apply Forall_cons in H as [? H]
         end.
  rewrite beforeSpace_field by done.
  destruct (String.eqb_spec rev zeroSha) as [|_]; [done|].
  rewrite decide_True by (simpl; lia).
  unfold recordOf. cbn [lookup list_lookup default from_option id].
  by rewrite !afterSpace_field, beforeSpace_field.
Qed.

Lemma parseBlame_well_formed_witness :
  parseBlame (unlines sampleLines) =
    Normal (inl {| author := {| Extension.name := "Ada Lovelace";
                                email := "<ada@example.org>";
                                time := Int 1700000000 |};
                   committer := {| Extension.name := "Charles Babbage";
                                   email := "<charles@example.org>";
                                   time := Int 1700000600 |};
                   summary := "Fix the off by one in the loop";
                   sha := "8f3a1c0d9e2b4a6f7c8d9e0f1a2b3c4d5e6f7a8b" |}).
Proof.
  apply (parseBlame_well_formed
           "8f3a1c0d9e2b4a6f7c8d9e0f1a2b3c4d5e6f7a8b" "12 12 1"
           "author" "Ada Lovelace" "author-mail" "<ada@example.org>"
           "author-time" "1700000000" "author-tz +0100"
           "committer" "Charles Babbage" "committer-mail" "<charles@example.org>"
           "committer-time" "1700000600" "committer-tz +0000"
           "summary" "Fix the off by one in the loop"
           ["filename src/time.ts"; String "009" "return 1;"]).
  - repeat constructor.
  - repeat constructor.
  - discriminate.
Defined.

(** C2. A first line that starts with the all-zero hash and a space makes
    [parseBlame] return the "Change not committed yet" [Error], whatever
    follows on that line and on the others. *)
Theorem parseBlame_not_committed (rest : string) :
  parseBlame (field zeroSha rest) = Normal (inr (mkError "Change not committed yet")).
Proof.
  rewrite parseBlame_unfold, firstLine_field by reflexivity.
  by rewrite beforeSpace_field.
Qed.

(** C10. When the first line has no space, the revision read from it is the
    empty string: the "Change not committed yet" [Error] is not returned,
    not even when that line is the all-zero hash alone, and a record that is
    returned has an empty [sha]. *)
Theorem parseBlame_first_line_without_space (s : string) :
  occurs SP (firstLine s) = false ->
  beforeSpace (firstLine s) = ""
  /\ parseBlame s <> Normal (inr (mkError "Change not committed yet"))
  /\ (forall b, parseBlame s = Normal (inl b) -> sha b = "").
Proof.
  intros Hs. pose proof (beforeSpace_absent _ Hs) as Hsha.
  split; [done|].
  rewrite parseBlame_unfold, Hsha. cbn [String.eqb].
  pose proof (split_nonempty s LF) as Hne.
  case_decide; split; try done.
  intros b [= <-]. unfold recordOf. cbn [sha].
  unfold firstLine in Hsha. by destruct (split s LF).
Qed.

Lemma parseBlame_first_line_without_space_witness :
  firstLine (unlines bareZeroLines) = zeroSha
  /\ parseBlame (unlines bareZeroLines)
     <> Normal (inr (mkError "Change not committed yet"))
  /\ (forall b, parseBlame (unlines bareZeroLines) = Normal (inl b) -> sha b = "").
Proof.
  split; [reflexivity|].
  apply (parseBlame_first_line_without_space (unlines bareZeroLines)).
  reflexivity.
Defined.

Example parseBlame_bare_zero_hash : parseBlame zeroSha = Throw TypeError.
Proof. reflexivity. Qed.

Example parseBlame_bare_zero_hash_record :
  sha <$> (match parseBlame (unlines bareZeroLines) with
           | Normal (inl b) => Some b
           | _ => None
           end) = Some "".
Proof. reflexivity. Qed.

Example parseInt10_examples :
  parseInt10 "1700000000" = Int 1700000000
  /\ parseInt10 "  -12px" = Int (-12)
  /\ parseInt10 "+7" = Int 7
  /\ parseInt10 "0x1f" = Int 0
  /\ parseInt10 "soon" = NaN
  /\ parseInt10 "" = NaN.
Proof. repeat split. Qed.

(** ** The process runner *)

Section Runner.

Implicit Types (c : Command) (e : ProcessEvent) (events : list ProcessEvent).

Lemma deliver_cons e events c :
  deliver (e :: events) c = deliver events (emit e c).
Proof. reflexivity. Qed.

Lemma deliver_app events1 events2 c :
  deliver (events1 ++ events2)%list c = deliver events2 (deliver events1 c).
Proof. apply foldl_app. Qed.

(** Until the process closes the promise is left alone and [buffer] grows by
    the chunks of standard output. *)
Lemma deliver_before_close events c :
  Forall (fun e => isClose e = false) events ->
  promise (deliver events c) = promise c
  /\ buffer (deliver events c) = buffer c +:+ stdoutText events.
Proof.
  intros Hev. revert c.
  induction Hev as [|e events He _ IH]; intros c.
  - by rewrite app_nil_r.
  - rewrite deliver_cons. destruct (IH (emit e c)) as [-> ->].
    destruct e as [data|data|code]; [| |done]; cbn; [|done].
    by rewrite app_assoc.
Qed.

(** A settled promise stays as it is. *)
Lemma deliver_settled events c (v : option string) :
  promise c = Fulfilled v -> promise (deliver events c) = Fulfilled v.
Proof.
  revert c. induction events as [|e events IH]; intros c Hc; [done|].
  rewrite deliver_cons. apply IH.
  destruct e as [data|data|code]; cbn; [done..|].
  rewrite Hc. by case_match.
Qed.

Lemma onClose_pending code c :
  promise c = Pending ->
  promise (onClose code c) =
    Fulfilled (match buffer c with
               | "" => None
               | String _ _ => Some (buffer c)
               end).
Proof.
  intros Hc. cbn. rewrite Hc. unfold length.
  by destruct (buffer c).
Qed.

End Runner.

(** C5. When the process closes, the promise of [runCommand] is fulfilled
    with the chunks of standard output received until then, joined in the
    order they came, when that text is not empty, and with [undefined]
    ([None]) when it is empty; it is never fulfilled with the empty string
    and never rejected, whatever is delivered afterwards. *)
Theorem runCommand_resolves_with_output
  (command : string) (args : list string) (cwd : Directory)
  (before after : list ProcessEvent) (code : option Z) :
  Forall (fun e => isClose e = false) before ->
  let settled :=
    promise (deliver (before ++ Close code :: after)%list
                     (runCommand command args cwd)) in
  settled = Fulfilled (match stdoutText before with
                       | "" => None
                       | String _ _ => Some (stdoutText before)
                       end)
  /\ settled <> Fulfilled (Some "")
  /\ (forall reason, settled <> Rejected reason).
Proof.
  intros Hbefore settled.
  assert (Hs : settled = Fulfilled (match stdoutText before with
                                    | "" => None
                                    | String _ _ => Some (stdoutText before)
                                    end)).
  { subst settled. rewrite deliver_app, deliver_cons.
    destruct (deliver_before_close before (runCommand command args cwd) Hbefore)
      as [Hp Hb].
    apply deliver_settled. cbn [emit]. rewrite onClose_pending by done.
    by rewrite Hb. }
  rewrite Hs. split; [done|]. split; [|done].
  by destruct (stdoutText before).
Qed.

Lemma runCommand_resolves_with_output_witness :
  promise (deliver abcEvents (runCommand "git" ["blame"] (dirname "/a")))
  = Fulfilled (Some "abc").
Proof.
  apply (runCommand_resolves_with_output "git" ["blame"] (dirname "/a")
           [ StdoutData (mkBuffer "a"); StderrData (mkBuffer "warning");
             StdoutData (mkBuffer "bc") ] [] (Some 0)).
  repeat constructor.
Defined.

Example runCommand_no_output :
  promise (deliver [StderrData (mkBuffer "fatal: no such path"); Close (Some 128)]
                   (runCommand "git" ["blame"] (dirname "/a")))
  = Fulfilled None.
Proof. reflexivity. Qed.

(** ** The lookup *)

Section GetBlame.

Implicit Types (w : World) (editor : TextEditor).

(** With an absolute path, [getBlame] kills the process [activeBlame] refers
    to, if any, spawns its own and leaves [activeBlame] referring to it. *)
Lemma getBlame_call_absolute editor w :
  startsWith (path editor) "/" = true ->
  let pid := spawnCount w in
  let killedActive :=
    match activeBlame w with
    | Some p => alter (kill SIGKILL) p (children w)
    | None => children w
    end in
  snd (getBlame_call editor w) = inr pid
  /\ activeBlame (fst (getBlame_call editor w)) = Some pid
  /\ exists c, children (fst (getBlame_call editor w)) = <[pid := c]> killedActive
               /\ killed c = None /\ promise c = Pending /\ buffer c = "".
Proof.
  intros Hpath pid killedActive. unfold getBlame_call.
  rewrite Hpath. cbn [negb]. subst pid killedActive.
  destruct (activeBlame w) as [p|]; cbn; eauto 10.
Qed.

(** A lookup that starts while [activeBlame] refers to a process sends that
    process [SIGKILL]. *)
Lemma getBlame_call_supersedes editor w (p : Pid) (c : Command) :
  startsWith (path editor) "/" = true ->
  activeBlame w = Some p ->
  children w !! p = Some c ->
  p <> spawnCount w ->
  children (fst (getBlame_call editor w)) !! p = Some (kill SIGKILL c).
Proof.
  intros Hpath Hact Hc Hp.
  destruct (getBlame_call_absolute editor w Hpath) as (_ & _ & c' & -> & _).
  rewrite Hact, lookup_insert_ne by done.
  by rewrite lookup_alter_eq, Hc.
Qed.

End GetBlame.

(** C9. For a document whose path does not start with ["/"], [getBlame]
    returns the [Error] "Cannot blame non-existent file" and leaves the
    world as it found it: no process is spawned, the process [activeBlame]
    refers to is not killed, and [activeBlame] keeps its value. *)
Theorem getBlame_rejects_relative_path (editor : TextEditor) (w : World) :
  startsWith (path editor) "/" = false ->
  getBlame_call editor w = (w, inl (mkError "Cannot blame non-existent file")).
Proof. intros Hpath. unfold getBlame_call. by rewrite Hpath. Qed.

Lemma getBlame_rejects_relative_path_witness :
  getBlame_call untitled (run [Call editorA] initial)
  = (run [Call editorA] initial, inl (mkError "Cannot blame non-existent file")).
Proof.
  apply (getBlame_rejects_relative_path untitled (run [Call editorA] initial)).
  reflexivity.
Defined.

(** C7, as the code has it. The three failures the code knows are returned
    as [Error] values: a path that is not absolute, a process without
    output, and a line that is not committed yet.  There is no failure for
    malformed output: when the revision is not the all-zero hash,
    [parseBlame] returns a record if the text has at least ten lines and
    raises a [TypeError] if it has fewer. *)
Theorem failures_returned_except_short_output :
  (forall editor w,
     startsWith (path editor) "/" = false ->
     snd (getBlame_call editor w) = inl (mkError "Cannot blame non-existent file"))
  /\ (forall result w,
        falsy result = true ->
        snd (getBlame_resume result w) = Normal (inr (mkError "Unknown error..")))
  /\ (forall s,
        beforeSpace (firstLine s) = zeroSha ->
        parseBlame s = Normal (inr (mkError "Change not committed yet")))
  /\ (forall s,
        beforeSpace (firstLine s) <> zeroSha ->
        (10 <= List.length (split s LF))%nat ->
        parseBlame s = Normal (inl (recordOf (split s LF))))
  /\ (forall s,
        beforeSpace (firstLine s) <> zeroSha ->
        (List.length (split s LF) < 10)%nat ->
        parseBlame s = Throw TypeError).
Proof.
  repeat split.
  - intros editor w Hpath. unfold getBlame_call. by rewrite Hpath.
  - intros result w Hres. unfold getBlame_resume. by rewrite Hres.
  - intros s Hsha. rewrite parseBlame_unfold, Hsha. done.
  - intros s Hsha Hlen. rewrite parseBlame_unfold.
    destruct (String.eqb_spec (beforeSpace (firstLine s)) zeroSha); [done|].
    by rewrite decide_True.
  - intros s Hsha Hlen. rewrite parseBlame_unfold.
    destruct (String.eqb_spec (beforeSpace (firstLine s)) zeroSha); [done|].
    by rewrite decide_False by lia.
Qed.

Lemma failures_returned_except_short_output_witness :
  snd (getBlame_call untitled initial) = inl (mkError "Cannot blame non-existent file")
  /\ snd (getBlame_resume None initial) = Normal (inr (mkError "Unknown error.."))
  /\ parseBlame (unlines sampleLines) = Normal (inl (recordOf sampleLines))
  /\ parseBlame (unlines shortLines) = Throw TypeError.
Proof.
  destruct failures_returned_except_short_output as (H1 & H2 & _ & H4 & H5).
  split; [by apply H1|]. split; [by apply H2|]. split.
  - apply (H4 (unlines sampleLines)); vm_compute; [discriminate|lia].
  - apply (H5 (unlines shortLines)); vm_compute; [discriminate|lia].
Defined.

(** C7, as stated, fails: on output of three lines [parseBlame] raises a
    [TypeError] instead of returning a value. *)
Lemma parseBlame_short_output_throws :
  parseBlame (unlines shortLines) = Throw TypeError
  /\ ~ (exists v, parseBlame (unlines shortLines) = Normal v).
Proof. split; [reflexivity|]. by intros [v Hv]. Qed.

(** C4, at the three lookups A, B and C. B starts while the process of A
    runs: the process of A is killed and [activeBlame] refers to the process
    of B.  The call for A then resumes and sets [activeBlame] to [null].
    When C starts the process of B has not closed and has been sent no
    signal, and it stays so: B and C both wait for their processes. *)
Theorem overlapping_lookups_leave_process_running :
  let afterA := run [Call editorA] initial in
  let afterB := run [Call editorA; Call editorB] initial in
  let resumedA := run [Call editorA; Call editorB; Event 0%nat (Close None)] initial in
  let afterC := run threeLookups initial in
  activeBlame afterA = Some 0%nat
  /\ snd (getBlame_call editorB afterA) = inr 1%nat
  /\ snd (getBlame_call editorC resumedA) = inr 2%nat
  /\ killed <$> (children afterB !! 0%nat) = Some (Some SIGKILL)
  /\ activeBlame afterB = Some 1%nat
  /\ activeBlame resumedA = None
  /\ promise <$> (children resumedA !! 1%nat) = Some Pending
  /\ killed <$> (children afterC !! 1%nat) = Some None
  /\ promise <$> (children afterC !! 1%nat) = Some Pending
  /\ promise <$> (children afterC !! 2%nat) = Some Pending
  /\ activeBlame afterC = Some 2%nat.
Proof. vm_compute. repeat split. Qed.

(** ** The relative time formatter *)

Section FormatTimeAgo.

Local Open Scope float_scope.

Implicit Types (divisions : list Division) (duration : float).

Lemma scaled_0 divisions duration : scaled divisions duration 0 = duration.
Proof. reflexivity. Qed.

Lemma scaled_S (division : Division) divisions duration (k : nat) :
  scaled (division :: divisions) duration (S k)
  = scaled divisions (duration / amount division) k.
Proof. reflexivity. Qed.

(** Where the loop returns: at the first division whose amount exceeds the
    magnitude of the duration divided down to it, with that duration rounded
    once. *)
Lemma walk_stops divisions duration (result : Completion RelativeTime) :
  walk divisions duration = inl result ->
  exists (k : nat) (division : Division),
    divisions !! k = Some division
    /\ (abs (scaled divisions duration k) <? amount division) = true
    /\ (forall (j : nat) (d : Division),
          (j < k)%nat -> divisions !! j = Some d ->
          (abs (scaled divisions duration j) <? amount d) = false)
    /\ result = format (Math_round (scaled divisions duration k)) (Time.name division).
Proof.
  revert duration.
  induction divisions as [|division divisions IH]; intros duration Hwalk; [done|].
  cbn [walk] in Hwalk.
  destruct (abs duration <? amount division) eqn:Hlt.
  - injection Hwalk as <-. exists 0%nat, division.
    repeat split; [done|]. intros j d Hj. lia.
  - destruct (IH _ Hwalk) as (k & division' & Hk & Hstop & Hbefore & ->).
    exists (S k), division'. rewrite scaled_S. repeat split; [done..|].
    intros [|j] d Hj Hd.
    + injection Hd as <-. by rewrite scaled_0.
    + rewrite scaled_S. apply Hbefore; [lia|done].
Qed.

(** When the loop runs out, no division matched. *)
Lemma walk_runs_out divisions duration (d : float) :
  walk divisions duration = inr d ->
  d = scaled divisions duration (List.length divisions)
  /\ (forall (j : nat) (division : Division),
        divisions !! j = Some division ->
        (abs (scaled divisions duration j) <? amount division) = false).
Proof.
  revert duration.
  induction divisions as [|division divisions IH]; intros duration Hwalk.
  - injection Hwalk as <-. split; [done|]. by intros j division' Hj.
  - cbn [walk] in Hwalk.
    destruct (abs duration <? amount division) eqn:Hlt; [done|].
    destruct (IH _ Hwalk) as [-> Hnone]. split; [done|].
    intros [|j] division' Hj.
    + injection Hj as <-. by rewrite scaled_0.
    + rewrite scaled_S. by apply Hnone.
Qed.

(** [Math.round] gives the integer nearest to the exact value, and of two
    nearest integers the greater one: [r - 1/2 <= num/den < r + 1/2]. *)
Lemma Math_round_nearest (x : float) (num den : Z) :
  exact x = Some (num, den) ->
  exists r : Z,
    Math_round x = Some r
    /\ ((2 * r - 1) * den <= 2 * num < (2 * r + 1) * den)%Z.
Proof.
  unfold exact, Math_round.
  destruct (Prim2SF x) as [s|s| |s m e]; try done.
  - intros [= <- <-]. exists 0%Z. split; [done|lia].
  - set (n := if s then Z.neg m else Z.pos m).
    intros [= <- <-]. eexists. split; [done|].
    destruct (Z.leb_spec 0 e) as [He|He].
    + rewrite (Z.max_r 0 e), (Z.max_l 0 (- e)) by lia.
      change (2 ^ 0)%Z with 1%Z. lia.
    + rewrite (Z.max_l 0 e), (Z.max_r 0 (- e)) by lia.
      change (2 ^ 0)%Z with 1%Z.
      set (h := (2 ^ (- e - 1))%Z).
      assert (Hh : (0 < h)%Z) by (apply Z.pow_pos_nonneg; lia).
      assert (Hpow : (2 ^ (- e) = 2 * h)%Z).
      { subst h. rewrite <- Z.pow_succ_r by lia. f_equal. lia. }
      rewrite !Hpow.
      pose proof (Z.div_mod (n + h) (2 * h) ltac:(lia)) as Hdiv.
      pose proof (Z.mod_pos_bound (n + h) (2 * h) ltac:(lia)) as Hmod.
      nia.
Qed.

Lemma Math_round_not_finite (x : float) :
  exact x = None -> Math_round x = None.
Proof.
  unfold exact, Math_round. by destruct (Prim2SF x).
Qed.

(** The amount of the weeks division is the binary64 value nearest to
    4.34524: it is within half a unit in the last place, [2 ^ -51], of it. *)
Lemma weeks_amount_is_nearest :
  exact 0x1.161869835158cp+2 = Some (4892305311208844, 2 ^ 50)%Z
  /\ (2 * Z.abs (4892305311208844 * 100000 - 434524 * 2 ^ 50) <= 100000)%Z.
Proof. split; [reflexivity|]. vm_compute. discriminate. Qed.

(** The comparison with [Infinity] holds for the finite numbers and for no
    other value. *)
Lemma below_infinity_iff_finite (x : float) :
  (abs x <? infinity) = true <-> exact x <> None.
Proof.
  rewrite ltb_spec, abs_spec.
  change (Prim2SF infinity) with (S754_infinity false).
  unfold exact. by destruct (Prim2SF x) as [s|s| |s m e].
Qed.

(** The last division returns for every finite duration that reaches it. *)
Lemma years_division_matches duration :
  exact duration <> None ->
  walk [mkDivision infinity years] duration
  = inl (format (Math_round duration) years).
Proof.
  intros Hfin. apply below_infinity_iff_finite in Hfin.
  cbn [walk amount Time.name]. by rewrite Hfin.
Qed.

(** The loop over [DIVISIONS] runs out only on a duration that, divided down
    to years, is [NaN] or infinite. *)
Lemma walk_DIVISIONS_runs_out duration (d : float) :
  walk DIVISIONS duration = inr d ->
  exact (scaled DIVISIONS duration 6) = None.
Proof.
  intros Hwalk. apply walk_runs_out in Hwalk as [_ Hnone].
  specialize (Hnone 6%nat (mkDivision infinity years) eq_refl).
  cbn [amount] in Hnone.
  destruct (exact (scaled DIVISIONS duration 6)) as [q|] eqn:Hq; [|done].
  assert (Hfin : exact (scaled DIVISIONS duration 6) <> None) by by rewrite Hq.
  apply below_infinity_iff_finite in Hfin. congruence.
Qed.

End FormatTimeAgo.

(** C8. The divisions are 60 seconds, 60 minutes, 24 hours, 7 days, 4.34524
    weeks, 12 months and infinitely many years; the loop returns at the
    first division whose amount exceeds the magnitude of the duration
    divided by the amounts before it.  A date 30 seconds before now is
    printed as -30 seconds, a date 8 days before now as -1 week, and a date
    equal to now as 0 seconds. *)
Theorem formatTimeAgo_tiers :
  map amount DIVISIONS
  = [60; 60; 24; 7; 0x1.161869835158cp+2; 12; infinity]%float
  /\ map Time.name DIVISIONS
     = [seconds; minutes; hours; days; weeks; months; years]
  /\ (forall (duration : float) (result : Completion RelativeTime),
        walk DIVISIONS duration = inl result ->
        exists (k : nat) (division : Division),
          DIVISIONS !! k = Some division
          /\ (abs (scaled DIVISIONS duration k) <? amount division)%float = true
          /\ (forall (j : nat) (d : Division),
                (j < k)%nat -> DIVISIONS !! j = Some d ->
                (abs (scaled DIVISIONS duration j) <? amount d)%float = false)
          /\ result = format (Math_round (scaled DIVISIONS duration k))
                             (Time.name division))
  /\ (forall now date : Date,
        (getTime date - getTime now)%float = (-30000)%float ->
        formatTimeAgo now date = Normal {| value := -30; unit := seconds |})
  /\ (forall now date : Date,
        (getTime date - getTime now)%float = (-691200000)%float ->
        formatTimeAgo now date = Normal {| value := -1; unit := weeks |})
  /\ (forall now date : Date,
        (getTime date - getTime now)%float = 0%float ->
        formatTimeAgo now date = Normal {| value := 0; unit := seconds |}).
Proof.
  split; [reflexivity|]. split; [reflexivity|].
  split; [intros duration result; apply walk_stops|].
  repeat split; intros now date Hdiff; unfold formatTimeAgo;
    rewrite Hdiff; reflexivity.
Qed.

Lemma formatTimeAgo_tiers_witness :
  formatTimeAgo now0 before30 = Normal {| value := -30; unit := seconds |}
  /\ formatTimeAgo now0 before8days = Normal {| value := -1; unit := weeks |}
  /\ formatTimeAgo now0 now0 = Normal {| value := 0; unit := seconds |}.
Proof.
  destruct formatTimeAgo_tiers as (_ & _ & _ & H30 & H8 & H0).
  split; [by apply H30|]. split; [by apply H8|]. by apply H0.
Defined.

(** C3, as the code has it. [Math.round] rounds to the nearest integer, a
    tie going to the greater of the two; it is applied once, to the duration
    divided down to the division where the loop stops.  A date 90 seconds
    before now is printed as -1 minute (1 minute ago), a date 90 seconds
    after now as 2 minutes. *)
Theorem formatTimeAgo_rounds_ties_upwards :
  (forall (x : float) (num den : Z),
     exact x = Some (num, den) ->
     exists r : Z,
       Math_round x = Some r
       /\ (2 * r - 1) * den <= 2 * num < (2 * r + 1) * den)
  /\ (forall now date : Date,
        exists k : nat,
          formatTimeAgo now date
          = format (Math_round
                      (scaled DIVISIONS
                         ((getTime date - getTime now) / 1000)%float k))
                   (default seconds (Time.name <$> DIVISIONS !! k)))
  /\ (forall now date : Date,
        (getTime date - getTime now)%float = (-90000)%float ->
        formatTimeAgo now date = Normal {| value := -1; unit := minutes |})
  /\ (forall now date : Date,
        (getTime date - getTime now)%float = 90000%float ->
        formatTimeAgo now date = Normal {| value := 2; unit := minutes |}).
Proof.
  split; [exact Math_round_nearest|]. split.
  - intros now date. unfold formatTimeAgo.
    destruct (walk DIVISIONS _) as [result|d] eqn:Hwalk.
    + apply walk_stops in Hwalk as (k & division & Hk & _ & _ & ->).
      exists k. by rewrite Hk.
    + apply walk_runs_out in Hwalk as [-> _].
      by exists (List.length DIVISIONS).
  - split; intros now date Hdiff; unfold formatTimeAgo;
      rewrite Hdiff; reflexivity.
Qed.

Lemma formatTimeAgo_rounds_ties_upwards_witness :
  formatTimeAgo now0 before90 = Normal {| value := -1; unit := minutes |}
  /\ formatTimeAgo now0 after90 = Normal {| value := 2; unit := minutes |}.
Proof.
  destruct formatTimeAgo_rounds_ties_upwards as (_ & _ & Hpast & Hfuture).
  split; [by apply Hpast|by apply Hfuture].
Defined.

(** C3, as stated, fails: a date 90 seconds before now is printed as
    1 minute ago, not as 2 minutes ago. *)
Lemma formatTimeAgo_90_seconds_ago :
  formatTimeAgo now0 before90 = Normal {| value := -1; unit := minutes |}
  /\ formatTimeAgo now0 before90 <> Normal {| value := -2; unit := minutes |}.
Proof. split; [reflexivity|]. vm_compute. discriminate. Qed.

(** C6, at an invalid date. Its time value is [NaN], so is the duration, no
    comparison of the loop holds, not even the one with infinity, and the
    [return] after the loop is reached; [format] then raises a
    [RangeError]. *)
Theorem formatTimeAgo_invalid_date_leaves_loop :
  walk DIVISIONS ((getTime invalidDate - getTime now0) / 1000)%float = inr nan
  /\ (abs nan <? infinity)%float = false
  /\ formatTimeAgo now0 invalidDate = Throw RangeError.
Proof. repeat split. Qed.

(** * Further properties *)

(** ** More on strings *)

Section MoreStrings.

Implicit Types (s a b k v : string) (c d : ascii).

Lemma length_take (n : nat) s :
  String.length (take n s) = Nat.min n (String.length s).
Proof.
  revert s. induction n as [|n IH]; intros [|c s]; simpl; [done..|].
  by rewrite IH.
Qed.

Lemma take_ge (n : nat) s : (String.length s <= n)%nat -> take n s = s.
Proof.
  revert s. induction n as [|n IH]; intros [|c s] Hn; simpl in *;
    [done|lia|done|].
  rewrite IH; [done|lia].
Qed.

Lemma take_min (n : nat) s : take (Nat.min n (String.length s)) s = take n s.
Proof.
  revert s. induction n as [|n IH]; intros [|c s]; simpl; [done..|].
  by rewrite IH.
Qed.

Lemma drop_app_le (n : nat) a b :
  (n <= String.length a)%nat -> drop n (a +:+ b) = drop n a +:+ b.
Proof.
  revert a. induction n as [|n IH]; intros [|c a] Hn; simpl in *;
    [by destruct b|done|lia|].
  apply IH. lia.
Qed.

Lemma length_drop (n : nat) s :
  String.length (drop n s) = (String.length s - n)%nat.
Proof.
  revert s. induction n as [|n IH]; intros [|c s]; simpl; [done..|].
  by rewrite IH.
Qed.

(** [slice(0, n)] keeps the first [n] code units. *)
Lemma slice_prefix s (n : Z) :
  0 <= n -> slice s 0 (Some n) = take (Z.to_nat n) s.
Proof.
  intros Hn. unfold slice, relativeIndex, length.
  destruct (Z.ltb_spec n 0) as [|_]; [lia|]. cbn [Z.ltb Z.compare].
  replace (Z.to_nat (Z.min 0 _)) with 0%nat by lia. cbn [drop].
  replace (Z.to_nat _) with (Nat.min (Z.to_nat n) (String.length s)) by lia.
  apply take_min.
Qed.

Lemma prefix_char c d s :
  String.prefix (String d "") (String c s) = Ascii.eqb c d.
Proof.
  cbn [String.prefix]. destruct (ascii_dec d c) as [<-|Hne].
  - rewrite Ascii.eqb_refl. by destruct s.
  - symmetry. apply Ascii.eqb_neq. congruence.
Qed.

Lemma indexOf_from_sep d k v i :
  occurs d k = false ->
  indexOf_from (k +:+ String d v) (String d "") i = i + length k.
Proof.
  revert i. induction k as [|c k IH]; intros i Hk.
  - rewrite app_nil. cbn [indexOf_from].
    rewrite prefix_char, Ascii.eqb_refl. unfold length. simpl. lia.
  - simpl in Hk. apply orb_false_iff in Hk as [Hc Hk].
    rewrite app_cons. cbn [indexOf_from]. rewrite prefix_char, Hc.
    rewrite IH by done. unfold length. simpl String.length. lia.
Qed.

Lemma indexOf_from_none d s i :
  occurs d s = false -> indexOf_from s (String d "") i = -1.
Proof.
  revert i. induction s as [|c s IH]; intros i Hs; [done|].
  simpl in Hs. apply orb_false_iff in Hs as [Hc Hs].
  cbn [indexOf_from]. rewrite prefix_char, Hc. by apply IH.
Qed.

End MoreStrings.

(** ** The inline hint and the "open-online" action *)

Section DisplayProperties.

Implicit Types (s summary remote branch base sha : string).

Lemma remoteOf_remote remote branch :
  occurs "/" remote = false ->
  remoteOf (remote +:+ String "/" branch) = remote.
Proof.
  intros Hr. unfold remoteOf, indexOf, substring.
  change "/"%string with (String "/" ""). rewrite indexOf_from_sep by done.
  unfold clamp, length. rewrite length_app. simpl String.length.
  replace (Z.to_nat (Z.min _ _)) with 0%nat by lia.
  replace (Z.to_nat _) with (String.length remote) by lia.
  cbn [drop]. apply take_app_length.
Qed.

Lemma remoteOf_no_slash s : occurs "/" s = false -> remoteOf s = "".
Proof.
  intros Hs. unfold remoteOf, indexOf, substring.
  change "/"%string with (String "/" ""). rewrite indexOf_from_none by done.
  unfold clamp, length.
  replace (Z.to_nat (_ - _)) with 0%nat by lia. apply take_0.
Qed.

Lemma falsy_Some s : falsy (Some s) = false <-> s <> "".
Proof. unfold falsy, length. destruct s; simpl; split; (done || lia). Qed.



(** A text that ends with a line break does not end with [".git"]. *)
Lemma endsWith_git_line_break s : endsWith (s +:+ String LF "") ".git" = false.
Proof.
  unfold endsWith, length. rewrite length_app. simpl String.length.
  destruct (Z.ltb _ 0) eqn:Hlt; [done|]. apply Z.ltb_ge in Hlt.
  rewrite drop_app_le by lia.
  apply String.eqb_neq. intros Heq.
  pose proof (length_drop (String.length s - 3) s) as Hlen.
  replace (Z.to_nat _) with (String.length s - 3)%nat in Heq by lia.
  destruct (drop _ s) as [|c1 [|c2 [|c3 [|c4 t]]]]; simpl in Hlen; try lia.
  discriminate Heq.
Qed.

End DisplayProperties.

(** X1. The summary of the inline hint. A summary of up to 18 code units is
    shown whole, a longer one is cut to its first 18; the three dots that
    mark the cut are added only to a summary longer than 20, so one of 19 or
    20 code units is cut without a mark.  The text shown never has more than
    21 code units. *)
Theorem summaryText_cases (summary : string) :
  ((String.length summary <= 18)%nat -> summaryText summary = summary)
  /\ ((18 < String.length summary <= 20)%nat ->
      summaryText summary = take 18 summary
      /\ String.length (summaryText summary) = 18%nat)
  /\ ((20 < String.length summary)%nat ->
      summaryText summary = take 18 summary +:+ "...")
  /\ (String.length (summaryText summary) <= 21)%nat.
Proof.
  unfold summaryText. rewrite slice_prefix by lia.
  change (Z.to_nat 18) with 18%nat. unfold length.
  destruct (Z.gtb_spec (Z.of_nat (String.length summary)) 20) as [Hgt|Hle].
  - split; [intros Hn; lia|]. split; [intros Hn; lia|]. split; [done|].
    rewrite length_app, length_take. simpl String.length. lia.
  - split; [intros Hn; by apply take_ge|].
    split; [intros Hn; split; [done|rewrite length_take; lia]|].
    split; [intros Hn; lia|].
    rewrite length_take. lia.
Qed.



(** X3. The URL of a remote that ends with a line break, as a command prints
    it, is used as it is: a [.git] before the line break is not removed and
    the line break stays in the URL that is opened. *)
Theorem openOnline_line_break_kept
  (sha remote branch url : string) (lsRemote : string -> option string) :
  occurs "/" remote = false ->
  lsRemote remote = Some (url +:+ String LF "") ->
  openOnline sha (Some (remote +:+ String "/" branch)) lsRemote
  = Open ((url +:+ String LF "") +:+ "/commit/" +:+ sha).
Proof.
  intros Hremote Hurl. unfold openOnline.
  assert (Hb : falsy (Some (remote +:+ String "/" branch)) = false).
  { apply falsy_Some. by destruct remote. }
  rewrite Hb. cbn [default from_option id].
  rewrite remoteOf_remote, Hurl by done.
  assert (Hu : falsy (Some (url +:+ String LF "")) = false).
  { apply falsy_Some. by destruct url. }
  rewrite Hu. cbn [default from_option id].
  by rewrite endsWith_git_line_break.
Qed.

Lemma openOnline_line_break_kept_witness :
  openOnline "8f3a1c0d" (Some (String.append "origin/main" (String LF "")))
    (fun _ => Some (String.append "https://example.org/ada/project.git" (String LF "")))
  = Open (String.append "https://example.org/ada/project.git"
            (String LF "/commit/8f3a1c0d")).
Proof.
  apply (openOnline_line_break_kept "8f3a1c0d" "origin"
           (String.append "main" (String LF ""))
           "https://example.org/ada/project.git"); reflexivity.
Defined.

(** X4. The warnings of the "open-online" action. Without a tracking branch
    the warning is "No tracking branch" and the remote is not looked up.  A
    tracking branch without ["/"] gives the empty remote name, and when the
    lookup of a remote gives nothing the warning names that remote. *)
Theorem openOnline_warnings (sha : string) :
  (forall (revParse : option string) (lsRemote : string -> option string),
     falsy revParse = true ->
     openOnline sha revParse lsRemote = ShowWarningMessage "No tracking branch")
  /\ (forall (remote branch : string) (lsRemote : string -> option string),
        occurs "/" remote = false ->
        falsy (lsRemote remote) = true ->
        openOnline sha (Some (remote +:+ String "/" branch)) lsRemote
        = ShowWarningMessage ("Could not find remote '" +:+ remote +:+ "'"))
  /\ (forall (s : string) (lsRemote : string -> option string),
        s <> "" ->
        occurs "/" s = false ->
        falsy (lsRemote "") = true ->
        openOnline sha (Some s) lsRemote
        = ShowWarningMessage "Could not find remote ''").
Proof.
  repeat split.
  - intros revParse lsRemote Hrev. unfold openOnline. by rewrite Hrev.
  - intros remote branch lsRemote Hremote Hls. unfold openOnline.
    assert (Hb : falsy (Some (remote +:+ String "/" branch)) = false).
    { apply falsy_Some. by destruct remote. }
    rewrite Hb. cbn [default from_option id].
    by rewrite remoteOf_remote, Hls.
  - intros s lsRemote Hs Hslash Hls. unfold openOnline.
    apply falsy_Some in Hs. rewrite Hs. cbn [default from_option id].
    by rewrite remoteOf_no_slash, Hls.
Qed.

Lemma summaryText_cases_witness :
  summaryText "Fix typo" = "Fix typo"
  /\ summaryText "Nineteen characters" = "Nineteen character"
  /\ summaryText "Fix the off by one in the loop" = "Fix the off by one..."
  /\ (String.length (summaryText "Fix the off by one in the loop") <= 21)%nat.
Proof.
  destruct (summaryText_cases "Fix typo") as (H1 & _).
  destruct (summaryText_cases "Nineteen characters") as (_ & H2 & _).
  destruct (summaryText_cases "Fix the off by one in the loop") as (_ & _ & H3 & H4).
  split; [apply H1; simpl; lia|].
  split; [apply H2; simpl; lia|].
  split; [apply H3; simpl; lia|exact H4].
Defined.

Lemma openOnline_warnings_witness :
  openOnline "8f3a1c0d" None (fun _ => None)
  = ShowWarningMessage "No tracking branch"
  /\ openOnline "8f3a1c0d" (Some "origin/main") (fun _ => None)
     = ShowWarningMessage "Could not find remote 'origin'"
  /\ openOnline "8f3a1c0d" (Some "main") (fun _ => None)
     = ShowWarningMessage "Could not find remote ''".
Proof.
  destruct (openOnline_warnings "8f3a1c0d") as (H1 & H2 & H3).
  split; [by apply H1|].
  split; [by apply (H2 "origin" "main")|].
  by apply H3.
Defined.

(** ** The worlds the lookups reach *)

Section ReachableWorlds.

Implicit Types (w : World) (editor : TextEditor) (c : Command)
  (e : ProcessEvent) (p pid : Pid).

(** The world after a call with an absolute path. *)
Lemma getBlame_call_world editor w :
  startsWith (path editor) "/" = true ->
  fst (getBlame_call editor w)
  = {| activeBlame := Some (spawnCount w);
       children :=
         <[spawnCount w :=
             runCommand "git"
               ["blame"; "-C"; "--porcelain"; "-L";
                pretty (line editor + 1) +:+ ",+1"; path editor]
               (dirname (path editor))]>
           (match activeBlame w with
            | Some p => alter (kill SIGKILL) p (children w)
            | None => children w
            end);
       spawnCount := S (spawnCount w);
       returned := returned w |}.
Proof.
  intros Hpath. unfold getBlame_call. rewrite Hpath. cbn [negb].
  by destruct (activeBlame w).
Qed.

(** Killing the active process changes neither which children there are nor
    their promises. *)
Lemma lookup_killed_active w p :
  (match activeBlame w with
   | Some a => alter (kill SIGKILL) a (children w)
   | None => children w
   end) !! p
  = (fun c => if decide (activeBlame w = Some p) then kill SIGKILL c else c)
      <$> children w !! p.
Proof.
  destruct (activeBlame w) as [a|].
  - destruct (decide (a = p)) as [->|Hne].
    + rewrite lookup_alter_eq.
      destruct (children w !! p) as [c|]; cbn; [|done].
      by rewrite decide_True.
    + rewrite lookup_alter_ne by done.
      destruct (children w !! p) as [c|]; cbn; [|done].
      by rewrite decide_False by congruence.
  - destruct (children w !! p) as [c|]; cbn; [|done].
    by rewrite decide_False.
Qed.

Lemma emit_killed e c : killed (emit e c) = killed c.
Proof. by destruct e. Qed.

(** An event leaves the promise as it is or fulfils a pending one. *)
Lemma emit_promise e c :
  promise (emit e c) = promise c
  \/ (promise c = Pending /\ exists v, promise (emit e c) = Fulfilled v).
Proof.
  destruct e as [data|data|code]; cbn; [by left..|].
  destruct (promise c) eqn:Hc.
  - right. split; [done|]. case_match; eauto.
  - left. by case_match.
  - left. by case_match.
Qed.

Lemma returnedFor_kill c : returnedFor (kill SIGKILL c) = returnedFor c.
Proof. reflexivity. Qed.

Lemma Invariant_initial : Invariant initial.
Proof.
  split.
  - intros p. cbn. rewrite lookup_empty. split; [by intros []|lia].
  - intros p c reason. cbn. by rewrite lookup_empty.
  - done.
  - intros p. cbn. by rewrite !lookup_empty.
Qed.

Lemma Invariant_call editor w :
  Invariant w -> Invariant (fst (getBlame_call editor w)).
Proof.
  intros [Hdom Hrej Hact Hret].
  destruct (startsWith (path editor) "/") eqn:Hpath.
  2:{ unfold getBlame_call. rewrite Hpath. by split. }
  rewrite getBlame_call_world by done. split; cbn.
  - intros p. destruct (decide (spawnCount w = p)) as [<-|Hne].
    + rewrite lookup_insert_eq. split; [lia|eauto].
    + rewrite lookup_insert_ne, lookup_killed_active by done.
      rewrite fmap_is_Some, Hdom. lia.
  - intros p c reason. destruct (decide (spawnCount w = p)) as [<-|Hne].
    + rewrite lookup_insert_eq. by intros [= <-].
    + rewrite lookup_insert_ne, lookup_killed_active by done.
      destruct (children w !! p) as [c0|] eqn:Hc0; [|done].
      intros [= <-]. specialize (Hrej p c0 reason Hc0).
      by case_decide.
  - intros p [= <-]. rewrite lookup_insert_eq. eauto.
  - intros p. destruct (decide (spawnCount w = p)) as [<-|Hne].
    + rewrite lookup_insert_eq, Hret. cbn.
      destruct (children w !! _) as [c0|] eqn:Hc0; [|done].
      assert (is_Some (children w !! spawnCount w)) as Hs by eauto.
      apply Hdom in Hs. lia.
    + rewrite lookup_insert_ne, lookup_killed_active, Hret by done.
      destruct (children w !! p) as [c0|]; [|done]. cbn.
      by case_decide.
Qed.

Lemma Invariant_event pid e w :
  Invariant w -> Invariant (step w (Event pid e)).
Proof.
  intros Hw. pose proof Hw as [Hdom Hrej Hact Hret]. cbn [step].
  destruct (children w !! pid) as [c|] eqn:Hc; [|done].
  assert (Hkeys : forall p, is_Some (<[pid := emit e c]> (children w) !! p)
                            <-> (p < spawnCount w)%nat).
  { intros p. rewrite <- Hdom. destruct (decide (pid = p)) as [<-|Hne].
    - rewrite lookup_insert_eq, Hc. split; eauto.
    - by rewrite lookup_insert_ne. }
  destruct (emit_promise e c) as [Hsame|[Hpending [v Hv]]].
  - (* the promise is as it was: the call that awaits it does not resume *)
    assert (Hstep :
      match promise c, promise (emit e c) with
      | Pending, Fulfilled result =>
          let '(w2, r) :=
            getBlame_resume result
              (setChildren (<[pid := emit e c]> (children w)) w) in
          {| activeBlame := activeBlame w2;
             children := children w2;
             spawnCount := spawnCount w2;
             returned := <[pid := r]> (returned w2) |}
      | _, _ => setChildren (<[pid := emit e c]> (children w)) w
      end = setChildren (<[pid := emit e c]> (children w)) w).
    { rewrite Hsame. by destruct (promise c). }
    rewrite Hstep. split; cbn.
    + exact Hkeys.
    + intros p c' reason. destruct (decide (pid = p)) as [<-|Hne].
      * rewrite lookup_insert_eq. intros [= <-]. rewrite Hsame. by eapply Hrej.
      * rewrite lookup_insert_ne by done. apply Hrej.
    + intros p Hp. destruct (Hact p Hp) as (c0 & Hc0 & Hpend & Hkill).
      destruct (decide (pid = p)) as [<-|Hne].
      * rewrite lookup_insert_eq. exists (emit e c).
        rewrite Hc in Hc0. injection Hc0 as <-.
        by rewrite Hsame, emit_killed.
      * rewrite lookup_insert_ne by done. eauto.
    + intros p. destruct (decide (pid = p)) as [<-|Hne].
      * rewrite lookup_insert_eq, Hret, Hc. cbn. unfold returnedFor.
        by rewrite Hsame.
      * rewrite lookup_insert_ne by done. apply Hret.
  - (* the promise is fulfilled: the call resumes and returns *)
    rewrite Hpending, Hv. unfold getBlame_resume.
    assert (Hout : forall w',
      (if falsy v
       then (w', Normal (inr (mkError "Unknown error..")))
       else (w', parseBlame (default "" v))) = (w', outcome v)).
    { intros w'. unfold outcome. by destruct (falsy v). }
    rewrite Hout. split; cbn.
    + exact Hkeys.
    + intros p c' reason. destruct (decide (pid = p)) as [<-|Hne].
      * rewrite lookup_insert_eq. intros [= <-]. by rewrite Hv.
      * rewrite lookup_insert_ne by done. apply Hrej.
    + done.
    + intros p. destruct (decide (pid = p)) as [<-|Hne].
      * rewrite !lookup_insert_eq. cbn. unfold returnedFor. by rewrite Hv.
      * rewrite !lookup_insert_ne by done. apply Hret.
Qed.

Lemma run_snoc (jobs : list Job) (j : Job) w :
  run (jobs ++ [j])%list w = step (run jobs w) j.
Proof. unfold run. by rewrite foldl_app. Qed.

Lemma Invariant_step (j : Job) w : Invariant w -> Invariant (step w j).
Proof.
  destruct j as [editor|pid e]; [apply Invariant_call|apply Invariant_event].
Qed.

Lemma Invariant_run (jobs : list Job) : Invariant (run jobs initial).
Proof.
  induction jobs as [|j jobs IH] using rev_ind; [apply Invariant_initial|].
  rewrite run_snoc. by apply Invariant_step.
Qed.



End ReachableWorlds.

Section Lookups.

Implicit Types (w : World) (editor : TextEditor) (c : Command)
  (e : ProcessEvent) (events : list ProcessEvent) (p pid : Pid).

Lemma run_cons (j : Job) (jobs : list Job) w :
  run (j :: jobs) w = run jobs (step w j).
Proof. reflexivity. Qed.

Lemma run_app (jobs1 jobs2 : list Job) w :
  run (jobs1 ++ jobs2)%list w = run jobs2 (run jobs1 w).
Proof. apply foldl_app. Qed.

Lemma emit_pending e c :
  isClose e = false -> promise (emit e c) = promise c.
Proof. by destruct e. Qed.

(** Events other than the close reach the child and nothing else. *)
Lemma run_events pid events w c :
  children w !! pid = Some c ->
  promise c = Pending ->
  Forall (fun e => isClose e = false) events ->
  children (run (map (Event pid) events) w) !! pid = Some (deliver events c)
  /\ activeBlame (run (map (Event pid) events) w) = activeBlame w
  /\ returned (run (map (Event pid) events) w) = returned w.
Proof.
  intros Hc Hp Hev. revert w c Hc Hp.
  induction Hev as [|e events He _ IH]; intros w c Hc Hp; [done|].
  cbn [map]. rewrite run_cons, deliver_cons.
  assert (Hstep : step w (Event pid e)
                  = setChildren (<[pid := emit e c]> (children w)) w).
  { cbn [step]. rewrite Hc, (emit_pending e c He), Hp. done. }
  rewrite Hstep.
  destruct (IH (setChildren (<[pid := emit e c]> (children w)) w) (emit e c))
    as (Hc' & Ha' & Hr').
  - cbn. by rewrite lookup_insert_eq.
  - by rewrite emit_pending.
  - by rewrite Hc', Ha', Hr'.
Qed.

End Lookups.


(** X6. The process [activeBlame] refers to is running. In the world after
    any jobs, when [activeBlame] is set it refers to a child process whose
    promise is pending and which was sent no signal: a signal is never sent
    to a process that has closed or that was killed before. *)
Theorem active_process_is_running (jobs : list Job) (p : Pid) :
  activeBlame (run jobs initial) = Some p ->
  exists c : Command,
    children (run jobs initial) !! p = Some c
    /\ promise c = Pending /\ killed c = None.
Proof. apply (active_running _ (Invariant_run jobs)). Qed.

Lemma active_process_is_running_witness :
  exists c : Command,
    children (run [Call editorA; Call editorB] initial) !! 1%nat = Some c
    /\ promise c = Pending /\ killed c = None.
Proof.
  apply (active_process_is_running [Call editorA; Call editorB] 1%nat).
  reflexivity.
Defined.

(** X7. What a call returns comes from its own process. In the world after
    any jobs, the call that awaits child [p] has returned exactly when the
    promise of [p] is fulfilled, and what it returned is the [Error]
    "Unknown error.." when that promise was fulfilled with [undefined], and
    [parseBlame] of the text it was fulfilled with otherwise.  No promise
    of a child is ever rejected. *)
Theorem call_returns_outcome_of_its_process (jobs : list Job) (p : Pid) :
  returned (run jobs initial) !! p
  = (children (run jobs initial) !! p) ≫= returnedFor
  /\ (forall (c : Command) (reason : Exception),
        children (run jobs initial) !! p = Some c ->
        promise c <> Rejected reason).
Proof.
  split.
  - apply (returned_outcome _ (Invariant_run jobs)).
  - intros c reason. apply (never_rejected _ (Invariant_run jobs)).
Qed.

(** X8. A call supersedes the active process. In the world after any jobs,
    a call of [getBlame] with an absolute path, made while [activeBlame]
    refers to a process, sends that process [SIGKILL] before it has closed
    and leaves [activeBlame] referring to the process it spawns itself. *)
Theorem call_kills_active_process
  (jobs : list Job) (editor : TextEditor) (p : Pid) :
  startsWith (path editor) "/" = true ->
  activeBlame (run jobs initial) = Some p ->
  exists c : Command,
    children (fst (getBlame_call editor (run jobs initial))) !! p = Some c
    /\ killed c = Some SIGKILL
    /\ promise c = Pending
    /\ activeBlame (fst (getBlame_call editor (run jobs initial)))
       = Some (spawnCount (run jobs initial))
    /\ p <> spawnCount (run jobs initial).
Proof.
  intros Hpath Hact.
  pose proof (Invariant_run jobs) as [Hdom _ Hrun _].
  destruct (Hrun p Hact) as (c & Hc & Hpend & _).
  assert (Hp : (p < spawnCount (run jobs initial))%nat).
  { apply Hdom. eauto. }
  exists (kill SIGKILL c).
  rewrite getBlame_call_world by done. cbn.
  rewrite lookup_insert_ne by lia.
  rewrite lookup_killed_active, Hc. cbn. rewrite decide_True by done.
  repeat split; [done|lia].
Qed.

Lemma call_kills_active_process_witness :
  exists c : Command,
    children (fst (getBlame_call editorB (run [Call editorA] initial))) !! 0%nat
    = Some c
    /\ killed c = Some SIGKILL
    /\ promise c = Pending
    /\ activeBlame (fst (getBlame_call editorB (run [Call editorA] initial)))
       = Some (spawnCount (run [Call editorA] initial))
    /\ 0%nat <> spawnCount (run [Call editorA] initial).
Proof.
  apply (call_kills_active_process [Call editorA] editorB 0%nat); reflexivity.
Defined.

(** X9. A lookup from the call to the result. From any world, a call of
    [getBlame] with an absolute path, followed by the data events of the
    process it spawned and by its close, returns the [Error] "Unknown
    error.." when the process wrote nothing to standard output, and
    [parseBlame] of all it wrote otherwise; [activeBlame] is [null]
    afterwards. *)
Theorem lookup_returns_parsed_output
  (editor : TextEditor) (w : World)
  (events : list ProcessEvent) (code : option Z) :
  startsWith (path editor) "/" = true ->
  Forall (fun e => isClose e = false) events ->
  returned
    (run (Call editor
            :: (map (Event (spawnCount w)) events
                ++ [Event (spawnCount w) (Close code)])%list) w)
    !! spawnCount w
  = Some (match stdoutText events with
          | "" => Normal (inr (mkError "Unknown error.."))
          | String _ _ => parseBlame (stdoutText events)
          end)
  /\ activeBlame
       (run (Call editor
               :: (map (Event (spawnCount w)) events
                   ++ [Event (spawnCount w) (Close code)])%list) w)
     = None.
Proof.
  intros Hpath Hev. rewrite run_cons, run_app. cbn [step].
  set (w0 := fst (getBlame_call editor w)).
  set (c0 := runCommand "git"
               ["blame"; "-C"; "--porcelain"; "-L";
                pretty (line editor + 1) +:+ ",+1"; path editor]
               (dirname (path editor))).
  assert (Hc0 : children w0 !! spawnCount w = Some c0).
  { subst w0. rewrite getBlame_call_world by done. cbn.
    by rewrite lookup_insert_eq. }
  destruct (run_events (spawnCount w) events w0 c0 Hc0 eq_refl Hev)
    as (Hc1 & _ & _).
  destruct (deliver_before_close events c0 Hev) as [Hp1 Hb1].
  set (w1 := run (map (Event (spawnCount w)) events) w0) in *.
  cbn [run foldl step]. rewrite Hc1. cbn [emit].
  rewrite Hp1. change (promise c0) with (@Pending (option string)).
  rewrite onClose_pending by done. rewrite Hb1.
  change (buffer c0) with "". rewrite app_nil.
  unfold getBlame_resume, falsy, length.
  destruct (stdoutText events) as [|a text] eqn:Htext; cbn.
  - split; [apply lookup_insert_eq|done].
  - destruct (Z.of_nat _ =? 0) eqn:Hz; [apply Z.eqb_eq in Hz; lia|].
    cbn. split; [apply lookup_insert_eq|done].
Qed.

Lemma lookup_returns_parsed_output_witness :
  returned
    (run [ Call editorA; Event 0%nat (StdoutData (mkBuffer "a"));
           Event 0%nat (StderrData (mkBuffer "warning"));
           Event 0%nat (StdoutData (mkBuffer "bc")); Event 0%nat (Close (Some 0)) ]
         initial) !! 0%nat
  = Some (parseBlame "abc")
  /\ activeBlame
       (run [ Call editorA; Event 0%nat (StdoutData (mkBuffer "a"));
              Event 0%nat (StderrData (mkBuffer "warning"));
              Event 0%nat (StdoutData (mkBuffer "bc")); Event 0%nat (Close (Some 0)) ]
            initial)
     = None.
Proof.
  apply (lookup_returns_parsed_output editorA initial
           [ StdoutData (mkBuffer "a"); StderrData (mkBuffer "warning");
             StdoutData (mkBuffer "bc") ] (Some 0)).
  - reflexivity.
  - repeat constructor.
Defined.

(** ** The range of the formatter *)

Section FormatterRange.

Local Open Scope float_scope.

Lemma sub_nan (y : float) : nan - y = nan.
Proof.
  rewrite <- (SF2Prim_Prim2SF (nan - y)), sub_spec.
  change (Prim2SF nan) with S754_nan. reflexivity.
Qed.

(** A value that is not finite, divided by infinity, is [NaN]. *)
Lemma div_infinity_not_finite (x : float) :
  exact x = None -> Prim2SF (x / infinity) = S754_nan.
Proof.
  intros Hx. rewrite div_spec. change (Prim2SF infinity) with (S754_infinity false).
  unfold exact in Hx. by destruct (Prim2SF x).
Qed.

Lemma digits2_pos_bound (m : positive) : (Z.pos m < 2 ^ Z.pos (digits2_pos m))%Z.
Proof.
  induction m as [m IH|m IH|]; cbn [digits2_pos]; [| |done];
    rewrite Pos2Z.inj_succ, Z.pow_succ_r by lia; lia.
Qed.

(** The mantissa of a binary64 value has at most 53 bits. *)
Lemma valid_mantissa_bound (s : bool) (m : positive) (e : Z) :
  valid_binary (S754_finite s m e) = true -> (Z.pos m < 2 ^ 53)%Z.
Proof.
  cbn [SpecFloat.valid_binary]. unfold bounded, canonical_mantissa, fexp, emin.
  intros Hv. apply andb_true_iff in Hv as [Hc _]. apply Z.eqb_eq in Hc.
  pose proof (digits2_pos_bound m) as Hm.
  assert (Hd : (Z.pos (digits2_pos m) <= 53)%Z).
  { change prec with 53%Z in Hc. lia. }
  pose proof (Z.pow_le_mono_r 2 _ 53 ltac:(lia) Hd). lia.
Qed.

(** Below a threshold [t] of magnitude at most [twoB / 2], [Math.round]
    gives an integer of magnitude at most [twoB / 2]. *)
Lemma round_below_threshold (x t : float) (mt : positive) (et twoB : Z) :
  Prim2SF t = S754_finite false mt et ->
  (et < 0)%Z ->
  (2 * Z.pos mt <= twoB * 2 ^ (- et))%Z ->
  (2 ^ 54 <= twoB * 2 ^ (1 - et))%Z ->
  (abs x <? t) = true ->
  exists r : Z, Math_round x = Some r /\ (- twoB <= 2 * r <= twoB)%Z.
Proof.
  intros Ht Het Hmt Hpow Hlt.
  assert (HB : (0 < twoB)%Z).
  { pose proof (Z.pow_pos_nonneg 2 (- et) ltac:(lia) ltac:(lia)). nia. }
  rewrite ltb_spec, abs_spec, Ht in Hlt.
  pose proof (Prim2SF_valid x) as Hvalid.
  destruct (Prim2SF x) as [s|s| |s m e] eqn:Hx; try done.
  - exists 0%Z. unfold Math_round. rewrite Hx. split; [done|lia].
  - apply valid_mantissa_bound in Hvalid.
    destruct (Math_round_nearest x
                ((if s then Z.neg m else Z.pos m) * 2 ^ Z.max 0 e)%Z
                (2 ^ Z.max 0 (- e))%Z) as (r & Hr & Hlo & Hhi).
    { unfold exact. by rewrite Hx. }
    exists r. split; [done|].
    assert (Hnum : (2 * Z.pos m * 2 ^ Z.max 0 e < twoB * 2 ^ Z.max 0 (- e))%Z).
    { cbn in Hlt. unfold SFltb, SFcompare in Hlt.
      destruct (Z.compare_spec e et) as [->|He|He]; [| |done].
      - rewrite (Z.max_l 0 et), (Z.max_r 0 (- et)) by lia.
        change (2 ^ 0)%Z with 1%Z.
        change (Pos.compare_cont Eq m mt) with (Pos.compare m mt) in Hlt.
        destruct (Pos.compare_spec m mt) as [|Hm|]; [done| |done]. lia.
      - rewrite (Z.max_l 0 e), (Z.max_r 0 (- e)) by lia.
        change (2 ^ 0)%Z with 1%Z.
        pose proof (Z.pow_le_mono_r 2 (1 - et) (- e) ltac:(lia) ltac:(lia)).
        nia. }
    assert (Hden : (0 < 2 ^ Z.max 0 (- e))%Z) by (apply Z.pow_pos_nonneg; lia).
    assert (Hpos : (0 < 2 ^ Z.max 0 e)%Z) by (apply Z.pow_pos_nonneg; lia).
    destruct s; nia.
Qed.

End FormatterRange.

Lemma formatTimeAgo_invalid_date_nan (now date : Date) :
  getTime date = nan -> formatTimeAgo now date = Throw RangeError.
Proof.
  intros Hdate. unfold formatTimeAgo. rewrite Hdate, sub_nan. reflexivity.
Qed.

(** X10. An invalid date makes [formatTimeAgo] throw. Whatever the current
    time is, for a date whose time value is [NaN] the duration is [NaN] and
    [formatTimeAgo] ends in the [RangeError] of [format]. *)
Theorem formatTimeAgo_invalid_date_throws (now date : Date) :
  getTime date = nan -> formatTimeAgo now date = Throw RangeError.
Proof.
  intros Hdate. unfold formatTimeAgo. rewrite Hdate, sub_nan. reflexivity.
Qed.

Lemma formatTimeAgo_invalid_date_throws_witness :
  formatTimeAgo before90 invalidDate = Throw RangeError.
Proof.
  apply (formatTimeAgo_invalid_date_throws before90 invalidDate). reflexivity.
Defined.

(** When no division of the loop matches, what is left of the duration is
    [NaN]. *)
Lemma walk_runs_out_nan (duration d : float) :
  walk DIVISIONS duration = inr d -> Prim2SF d = S754_nan.
Proof.
  intros Hwalk. pose proof (walk_DIVISIONS_runs_out _ _ Hwalk) as Hnot.
  apply walk_runs_out in Hwalk as [-> _].
  change (List.length DIVISIONS) with 7%nat.
  change (scaled DIVISIONS duration 7)
    with (scaled DIVISIONS duration 6 / infinity)%float.
  by apply div_infinity_not_finite.
Qed.

(** X11. The [return] after the loop never gives a phrase. When no division
    of the loop matches, the duration divided down to years is [NaN] or
    infinite, what is left after the last division is [NaN], and
    [formatTimeAgo] throws the [RangeError] of [format]. *)
Theorem formatTimeAgo_after_loop_throws (now date : Date) (d : float) :
  walk DIVISIONS ((getTime date - getTime now) / 1000)%float = inr d ->
  exact (scaled DIVISIONS ((getTime date - getTime now) / 1000)%float 6) = None
  /\ Prim2SF d = S754_nan
  /\ formatTimeAgo now date = Throw RangeError.
Proof.
  intros Hwalk. split; [by eapply walk_DIVISIONS_runs_out|].
  pose proof (walk_runs_out_nan _ _ Hwalk) as Hd. split; [done|].
  unfold formatTimeAgo. rewrite Hwalk. unfold Math_round. by rewrite Hd.
Qed.

Lemma formatTimeAgo_after_loop_throws_witness :
  exact (scaled DIVISIONS ((getTime invalidDate - getTime now0) / 1000)%float 6) = None
  /\ Prim2SF nan = S754_nan
  /\ formatTimeAgo now0 invalidDate = Throw RangeError.
Proof.
  apply (formatTimeAgo_after_loop_throws now0 invalidDate nan). reflexivity.
Defined.

(** X12. The range of what is printed. A phrase of [formatTimeAgo] counts at
    most 60 seconds, 60 minutes, 24 hours, 7 days, 4 weeks or 12 months, in
    the past or in the future; only the years are not limited.  The limit
    itself can be printed: the division is chosen before the rounding. *)
Theorem formatTimeAgo_value_within_limit
  (now date : Date) (v : Z) (u : RelativeTimeFormatUnit) (l : Z) :
  formatTimeAgo now date = Normal {| value := v; unit := u |} ->
  limit u = Some l ->
  - l <= v <= l.
Proof.
  intros Hfmt Hlimit. unfold formatTimeAgo in Hfmt.
  destruct (walk DIVISIONS _) as [result|d] eqn:Hwalk.
  2:{ apply walk_runs_out_nan in Hwalk. unfold Math_round in Hfmt.
      by rewrite Hwalk in Hfmt. }
  subst result.
  apply walk_stops in Hwalk as (k & division & Hk & Hstop & _ & Hres).
  destruct k as [|[|[|[|[|[|[|k]]]]]]]; [..|by destruct k];
    injection Hk as <-; cbn [amount Time.name] in *.
  1-6: match type of Hstop with
       | (abs ?dur <? ?thr)%float = true =>
           let bound := match thr with
                       | 0x1.161869835158cp+2%float => constr:(9)
                       | 60%float => constr:(120)
                       | 24%float => constr:(48)
                       | 7%float => constr:(14)
                       | 12%float => constr:(24)
                       end in
           edestruct round_below_threshold
             with (x := dur) (t := thr) (twoB := bound) as (r & Hr & Hbound);
           [reflexivity|done|by vm_compute|by vm_compute|exact Hstop|];
           rewrite Hr in Hres; cbn [format] in Hres;
           injection Hres as Hv Hu; subst v u;
           injection Hlimit as <-; lia
       end.
  destruct (Math_round _); cbn [format] in Hres; [|done].
  injection Hres as _ ->. discriminate Hlimit.
Qed.

Lemma formatTimeAgo_value_within_limit_witness : - 60 <= -30 <= 60.
Proof.
  apply (formatTimeAgo_value_within_limit now0 before30 (-30) seconds 60);
    reflexivity.
Defined.

(** The limit is reached: 59.6 seconds before now is printed as 60 seconds
    ago, and 59.5 seconds after now as in 60 seconds. *)
Example formatTimeAgo_60_seconds :
  formatTimeAgo (mkDate 1700000000000) (mkDate 1699999940400)
  = Normal {| value := -60; unit := seconds |}
  /\ formatTimeAgo (mkDate 1700000000000) (mkDate 1700000059500)
     = Normal {| value := 60; unit := seconds |}.
Proof. split; reflexivity. Qed.

(** ** Times in decimal *)

Section DecimalTimes.

Implicit Types (s rest : string) (c : ascii) (x : N).









End DecimalTimes.

Section ParsedLines.

Implicit Types (lines : list string).

Lemma parseBlame_unlines lines :
  (10 <= List.length lines)%nat ->
  Forall (fun l => occurs LF l = false) lines ->
  parseBlame (unlines lines) =
    if String.eqb (beforeSpace (default "" (lines !! 0%nat))) zeroSha
    then Normal (inr notCommitted)
    else Normal (inl (recordOf lines)).
Proof.
  intros Hlen Hlines.
  assert (Hne : lines <> []) by (destruct lines; [simpl in Hlen; lia|done]).
  rewrite parseBlame_unfold. unfold firstLine.
  rewrite split_unlines by done.
  rewrite decide_True by done. by destruct lines.
Qed.

End ParsedLines.



(** X14. The time zone lines and the lines after the summary are not read.
    Two texts of at least ten lines each that agree on lines 0, 1, 2, 3, 5,
    6, 7 and 9 are parsed to the same result. *)
Theorem parseBlame_ignores_other_lines (lines lines' : list string) :
  (10 <= List.length lines)%nat ->
  (10 <= List.length lines')%nat ->
  Forall (fun l => occurs LF l = false) lines ->
  Forall (fun l => occurs LF l = false) lines' ->
  Forall (fun i : nat => lines !! i = lines' !! i)
         [0; 1; 2; 3; 5; 6; 7; 9]%nat ->
  parseBlame (unlines lines) = parseBlame (unlines lines').
Proof.
  intros Hlen Hlen' Hlines Hlines' Hsame.
  rewrite !parseBlame_unlines by done.
  repeat match goal with
         | H : Forall _ (_ :: _) |- _ => apply Forall_cons in H as [? H]
         end.
  unfold recordOf. by repeat match goal with
                             | H : lines !! _ = _ |- _ => rewrite H; clear H
                             end.
Qed.

Lemma parseBlame_ignores_other_lines_witness :
  parseBlame (unlines sampleLines) = parseBlame (unlines sampleLinesOtherZone).
Proof.
  apply (parseBlame_ignores_other_lines sampleLines sampleLinesOtherZone).
  - simpl. lia.
  - simpl. lia.
  - repeat constructor.
  - repeat constructor.
  - repeat constructor.
Defined.

(** ** The texts shown *)

(** X15. A committer time that is not a number. For a blame whose committer
    time is [NaN], whatever the current time and the locale are, neither the
    inline hint nor the message of [showBlame] is produced: both end in the
    [RangeError] of [format].  An [Error] is shown by its message. *)
Theorem undated_blame_is_not_shown
  (now : Date) (phrase : RelativeTime -> string) :
  (forall b : BlameStruct,
     time (committer b) = NaN ->
     inlineHint now phrase (inl b) = Throw RangeError
     /\ blameMessage now phrase (inl b) = Throw RangeError)
  /\ (forall e : Error,
        inlineHint now phrase (inr e) = Normal (message e)
        /\ blameMessage now phrase (inr e)
           = Normal (ErrorMessage ("Failed to blame: " +:+ message e))).
Proof.
  split; [|done]. intros b Hb. unfold inlineHint, blameMessage.
  rewrite Hb. cbn [newDate].
  by rewrite (formatTimeAgo_invalid_date_nan now (mkDate nan) eq_refl).
Qed.

Lemma undated_blame_is_not_shown_witness :
  inlineHint now0 englishPhrase (inl undatedBlame) = Throw RangeError
  /\ blameMessage now0 englishPhrase (inl undatedBlame) = Throw RangeError.
Proof.
  destruct (undated_blame_is_not_shown now0 englishPhrase) as [Hnan _].
  by apply Hnan.
Defined.

Example inlineHint_sample :
  inlineHint (mkDate 1700000660000) englishPhrase
    (inl (recordOf sampleLines))
  = Normal "Charles Babbage (8f3a1c0d, 1 minute ago) Fix the off by one...".
Proof. reflexivity. Qed.
